(** * Codexia: the conversation store and the codex event hook

    A shallow embedding of [src/stores/ConversationStore.ts] (the persisted
    zustand store) and of the [useCodexEvents] hook that turns events of the
    background agent into store mutations.

    Conventions of the embedding:
    - JavaScript strings are [string]; [Date.now()] readings are [Z];
      an optional field or argument [x?: T] is an [option T];
    - [a || b] and [if (a)] follow JavaScript truthiness: the empty string,
      [null], [undefined], [false] and [0] are falsy, every object is truthy;
    - zustand's [set] merges a partial state into the state, so every action
      is a function from store states to store states; actions never write
      into an existing array or object (the heap-level model of the store
      below makes that explicit);
    - [Date.now()] and [Math.random()] are read from an [Oracle] that the
      caller supplies. *)

From Stdlib Require Import ZArith.
From stdpp Require Import gmap strings list fin_maps pretty.

Local Open Scope Z_scope.

(** ** JavaScript values and truthiness *)

(** A JSON value, as [JSON.parse] produces them; used for data whose static
    type is [any] (the persisted blob) or is declared outside the two source
    files (the configuration object). The numeric payload only matters through
    its being zero or not. *)
#[warnings="-register-all"]
Inductive jsval : Type :=
  | JNull
  | JBool (b : bool)
  | JNum (n : Z)
  | JStr (s : string)
  | JArr (elems : list jsval)
  | JObj (fields : list (string * jsval)).

(** [s] used as a condition: a string is truthy iff it is not empty. *)
Definition str_truthy (s : string) : bool :=
  match s with
  | EmptyString => false
  | String _ _ => true
  end.

(** [v] used as a condition. *)
Definition truthy (v : jsval) : bool :=
  match v with
  | JNull => false
  | JBool b => b
  | JNum n => negb (n =? 0)
  | JStr s => str_truthy s
  | JArr _ => true
  | JObj _ => true
  end.

(** [s || alt] on strings. *)
Definition str_or (s alt : string) : string :=
  if str_truthy s then s else alt.

(** [o || alt] where [o] is an optional string ([undefined] when absent). *)
Definition opt_str_or (o : option string) (alt : string) : string :=
  match o with
  | Some s => str_or s alt
  | None => alt
  end.

(** ** The data model (types/chat) *)

Inductive Role : Type := User | Assistant | System.

#[global] Instance Role_eq_dec : EqDecision Role.
Proof. solve_decision. Defined.

(** A chat mode is one of a few string literals ("agent" is the default). *)
Definition ChatMode : Type := string.

(** The configuration object; its declaration is in types/codex. *)
Definition CodexConfig : Type := jsval.

(** A message of a conversation. The fields after [timestamp] are optional
    and are the ones the store's actions write. *)
Record ChatMessage : Type := mkChatMessage {
  msg_id : string;
  role : Role;
  content : string;
  timestamp : Z;
  isStreaming : option bool;
  reasoning : option string;
  isReasoningStreaming : option bool;
  toolOutput : option string;
  isToolStreaming : option bool;
}.

(** A conversation object. [M] is what the [messages] field holds: the list
    of messages itself in the value-level model, a reference to an array in
    the heap-level model. *)
Record ConversationOf (M : Type) : Type := mkConversation {
  conv_id : string;
  title : string;
  messages : M;
  mode : ChatMode;
  createdAt : Z;
  updatedAt : Z;
  isFavorite : option bool;
  isLoading : option bool;
}.
Arguments mkConversation {M}.
Arguments conv_id {M}.
Arguments title {M}.
Arguments messages {M}.
Arguments mode {M}.
Arguments createdAt {M}.
Arguments updatedAt {M}.
Arguments isFavorite {M}.
Arguments isLoading {M}.

Abbreviation Conversation := (ConversationOf (list ChatMessage)).

(** The data fields of the store ([C] is what holds a conversation list). *)
Record StoreOf (C : Type) : Type := mkStore {
  config : CodexConfig;
  conversations : C;
  conversationsSnapshot : option C;
  currentConversationId : option string;
  sessionDisconnected : bool;
  pendingUserInput : option string;
  pendingNewConversation : bool;
  streamingActive : bool;
}.
Arguments mkStore {C}.
Arguments config {C}.
Arguments conversations {C}.
Arguments conversationsSnapshot {C}.
Arguments currentConversationId {C}.
Arguments sessionDisconnected {C}.
Arguments pendingUserInput {C}.
Arguments pendingNewConversation {C}.
Arguments streamingActive {C}.

Abbreviation Store := (StoreOf (list Conversation)).

(** *** Object spread with one field replaced: [{ ...x, f: v }] *)

Definition msg_with_content (m : ChatMessage) (v : string) : ChatMessage :=
  mkChatMessage (msg_id m) (role m) v (timestamp m) (isStreaming m)
    (reasoning m) (isReasoningStreaming m) (toolOutput m) (isToolStreaming m).

Definition msg_with_isStreaming (m : ChatMessage) (v : option bool) : ChatMessage :=
  mkChatMessage (msg_id m) (role m) (content m) (timestamp m) v
    (reasoning m) (isReasoningStreaming m) (toolOutput m) (isToolStreaming m).

Definition msg_with_reasoning (m : ChatMessage) (v : option string) : ChatMessage :=
  mkChatMessage (msg_id m) (role m) (content m) (timestamp m) (isStreaming m)
    v (isReasoningStreaming m) (toolOutput m) (isToolStreaming m).

Definition msg_with_isReasoningStreaming (m : ChatMessage) (v : option bool) : ChatMessage :=
  mkChatMessage (msg_id m) (role m) (content m) (timestamp m) (isStreaming m)
    (reasoning m) v (toolOutput m) (isToolStreaming m).

Definition msg_with_toolOutput (m : ChatMessage) (v : option string) : ChatMessage :=
  mkChatMessage (msg_id m) (role m) (content m) (timestamp m) (isStreaming m)
    (reasoning m) (isReasoningStreaming m) v (isToolStreaming m).

Definition msg_with_isToolStreaming (m : ChatMessage) (v : option bool) : ChatMessage :=
  mkChatMessage (msg_id m) (role m) (content m) (timestamp m) (isStreaming m)
    (reasoning m) (isReasoningStreaming m) (toolOutput m) v.

Section ConversationUpdates.
Context {M : Type}.
Implicit Type conv : ConversationOf M.

Definition conv_with_title conv (v : string) : ConversationOf M :=
  mkConversation (conv_id conv) v (messages conv) (mode conv)
    (createdAt conv) (updatedAt conv) (isFavorite conv) (isLoading conv).

Definition conv_with_mode conv (v : ChatMode) : ConversationOf M :=
  mkConversation (conv_id conv) (title conv) (messages conv) v
    (createdAt conv) (updatedAt conv) (isFavorite conv) (isLoading conv).

Definition conv_with_updatedAt conv (v : Z) : ConversationOf M :=
  mkConversation (conv_id conv) (title conv) (messages conv) (mode conv)
    (createdAt conv) v (isFavorite conv) (isLoading conv).

Definition conv_with_isFavorite conv (v : option bool) : ConversationOf M :=
  mkConversation (conv_id conv) (title conv) (messages conv) (mode conv)
    (createdAt conv) (updatedAt conv) v (isLoading conv).

Definition conv_with_isLoading conv (v : option bool) : ConversationOf M :=
  mkConversation (conv_id conv) (title conv) (messages conv) (mode conv)
    (createdAt conv) (updatedAt conv) (isFavorite conv) v.
End ConversationUpdates.

Definition conv_with_messages {M N : Type} (conv : ConversationOf M) (v : N)
    : ConversationOf N :=
  mkConversation (conv_id conv) (title conv) v (mode conv)
    (createdAt conv) (updatedAt conv) (isFavorite conv) (isLoading conv).

Section StoreUpdates.
Context {C : Type}.
Implicit Type s : StoreOf C.

Definition set_config s (v : CodexConfig) : StoreOf C :=
  mkStore v (conversations s) (conversationsSnapshot s)
    (currentConversationId s) (sessionDisconnected s) (pendingUserInput s)
    (pendingNewConversation s) (streamingActive s).

Definition set_conversations s (v : C) : StoreOf C :=
  mkStore (config s) v (conversationsSnapshot s)
    (currentConversationId s) (sessionDisconnected s) (pendingUserInput s)
    (pendingNewConversation s) (streamingActive s).

Definition set_conversationsSnapshot s (v : option C) : StoreOf C :=
  mkStore (config s) (conversations s) v
    (currentConversationId s) (sessionDisconnected s) (pendingUserInput s)
    (pendingNewConversation s) (streamingActive s).

Definition set_currentConversationId s (v : option string) : StoreOf C :=
  mkStore (config s) (conversations s) (conversationsSnapshot s)
    v (sessionDisconnected s) (pendingUserInput s)
    (pendingNewConversation s) (streamingActive s).

Definition set_sessionDisconnected s (v : bool) : StoreOf C :=
  mkStore (config s) (conversations s) (conversationsSnapshot s)
    (currentConversationId s) v (pendingUserInput s)
    (pendingNewConversation s) (streamingActive s).

Definition set_pendingUserInput s (v : option string) : StoreOf C :=
  mkStore (config s) (conversations s) (conversationsSnapshot s)
    (currentConversationId s) (sessionDisconnected s) v
    (pendingNewConversation s) (streamingActive s).

Definition set_pendingNewConversation s (v : bool) : StoreOf C :=
  mkStore (config s) (conversations s) (conversationsSnapshot s)
    (currentConversationId s) (sessionDisconnected s) (pendingUserInput s)
    v (streamingActive s).

Definition set_streamingActive s (v : bool) : StoreOf C :=
  mkStore (config s) (conversations s) (conversationsSnapshot s)
    (currentConversationId s) (sessionDisconnected s) (pendingUserInput s)
    (pendingNewConversation s) v.
End StoreUpdates.

(** ** Readings of the clock and of the random generator *)

(** [now] is what [Date.now()] returns during the call; [random36] is what
    [Math.random().toString(36)] yields after the "0." has been cut off and
    at most nine characters kept. *)
Record Oracle : Type := mkOracle {
  now : Z;
  random36 : string;
}.

(** ** The store's actions (ConversationStore.ts) *)

(** [conversations.find(conv => conv.id === id)] *)
Definition find_conv {M : Type} (id : string) (convs : list (ConversationOf M))
    : option (ConversationOf M) :=
  List.find (λ conv, bool_decide (conv_id conv = id)) convs.

(** [s.trim()], on the six ASCII white-space characters. *)
Fixpoint trim_start (s : string) : string :=
  match s with
  | String c s' => if Ascii.is_space c then trim_start s' else s
  | EmptyString => EmptyString
  end.

Definition trim (s : string) : string :=
  String.rev (trim_start (String.rev (trim_start s))).

(** Lines 51-58. *)
Definition generateTitle (msgs : list ChatMessage) : string :=
  match List.find (λ msg, bool_decide (role msg = User)) msgs with
  | Some firstUserMessage =>
      let content := trim (content firstUserMessage) in
      if (50 <? String.length content)%nat
      then String.substring 0 50 content +:+ "..."
      else content
  | None => "New Conversation"
  end.

(** The initial state, lines 73-80. *)
Definition initial_store (DEFAULT_CONFIG : CodexConfig) : Store :=
  mkStore DEFAULT_CONFIG [] None None false None false false.

Definition setConfig (config : CodexConfig) (s : Store) : Store :=
  set_config s config.

(** The identifier [createConversation] makes up when it is given none:
    [`codex-event-${Date.now()}-${Math.random().toString(36).substr(2, 9)}`]. *)
Definition fresh_conversation_id (o : Oracle) : string :=
  "codex-event-" +:+ pretty (now o) +:+ "-" +:+ random36 o.

(** Lines 87-118. The result is the returned identifier and the new state.
    [mode] defaults to "agent". *)
Definition createConversation (title : option string) (mode : option ChatMode)
    (sessionId : option string) (o : Oracle) (s : Store) : string * Store :=
  let id := opt_str_or sessionId (fresh_conversation_id o) in
  match find_conv id (conversations s) with
  | Some existingConversation =>
      (id, set_currentConversationId s (Some id))
  | None =>
      let newConversation : Conversation :=
        mkConversation id (opt_str_or title "New Conversation") []
          (default "agent" mode) (now o) (now o) (Some false) None in
      (id,
       set_pendingNewConversation
         (set_currentConversationId
            (set_conversations s (newConversation :: conversations s))
            (Some id))
         true)
  end.

(** Lines 124-133. *)
Definition selectHistoryConversation (conversation : Conversation) (s : Store)
    : Store :=
  set_currentConversationId s (Some (conv_id conversation)).

(** Lines 135-154. *)
Definition deleteConversation (id : string) (s : Store) : Store :=
  let updatedConversations :=
    filter (λ conv, conv_id conv ≠ id) (conversations s) in
  let newCurrentId :=
    if bool_decide (currentConversationId s = Some id)
    then match updatedConversations with
         | conv :: _ => Some (conv_id conv)
         | [] => None
         end
    else currentConversationId s in
  set_currentConversationId
    (set_conversations s updatedConversations) newCurrentId.

Definition setCurrentConversation (id : string) (s : Store) : Store :=
  set_currentConversationId s (Some id).

(** Lines 160-166. *)
Definition updateConversationTitle (id title : string) (o : Oracle) (s : Store)
    : Store :=
  set_conversations s
    (fmap (λ conv : Conversation,
            if bool_decide (conv_id conv = id)
            then conv_with_updatedAt (conv_with_title conv title) (now o)
            else conv)
         (conversations s)).

(** Lines 168-174. *)
Definition updateConversationMode (id : string) (mode : ChatMode) (o : Oracle)
    (s : Store) : Store :=
  set_conversations s
    (fmap (λ conv : Conversation,
            if bool_decide (conv_id conv = id)
            then conv_with_updatedAt (conv_with_mode conv mode) (now o)
            else conv)
         (conversations s)).

(** Lines 177-185: each conversation object is copied, and so is its message
    array; on values the copy is the list itself. *)
Definition snapshotConversations (s : Store) : Store :=
  let snapshot :=
    fmap (λ conv : Conversation, conv_with_messages conv (messages conv))
        (conversations s) in
  set_conversationsSnapshot s (Some snapshot).

(** [!conv.isFavorite]: an absent flag counts as false. *)
Definition toggleFavorite (id : string) (o : Oracle) (s : Store) : Store :=
  set_conversations s
    (fmap (λ conv : Conversation,
            if bool_decide (conv_id conv = id)
            then conv_with_updatedAt
                   (conv_with_isFavorite conv
                      (Some (negb (default false (isFavorite conv)))))
                   (now o)
            else conv)
         (conversations s)).

Definition setStreamingActive (active : bool) (s : Store) : Store :=
  set_streamingActive s active.

Definition setSessionDisconnected (disconnected : bool) (s : Store) : Store :=
  set_sessionDisconnected s disconnected.

Definition setPendingUserInput (input : option string) (s : Store) : Store :=
  set_pendingUserInput s input.

Definition setPendingNewConversation (pending : bool) (s : Store) : Store :=
  set_pendingNewConversation s pending.

(** Lines 214-222. *)
Definition setSessionLoading (sessionId : string) (loading : bool) (s : Store)
    : Store :=
  set_conversations s
    (fmap (λ conv : Conversation,
            if bool_decide (conv_id conv = sessionId)
            then conv_with_isLoading conv (Some loading)
            else conv)
         (conversations s)).

(** The text of the warning of [addDisconnectionWarning] (in ASCII). *)
Definition disconnection_text : string :=
  "Codex session has been disconnected. Your previous conversation history cannot be resumed. Please start a new conversation to continue chatting with the AI assistant.".

(** Lines 224-244. *)
Definition addDisconnectionWarning (conversationId : string) (o : Oracle)
    (s : Store) : Store :=
  let warningMessage :=
    mkChatMessage
      (conversationId +:+ "-disconnection-warning-" +:+ pretty (now o))
      System disconnection_text (now o) None None None None None in
  set_conversations s
    (fmap (λ conv : Conversation,
            if bool_decide (conv_id conv = conversationId)
            then conv_with_updatedAt
                   (conv_with_messages conv (messages conv ++ [warningMessage]))
                   (now o)
            else conv)
         (conversations s)).

(** Lines 246-269. *)
Definition addMessage (conversationId : string) (message : ChatMessage)
    (o : Oracle) (s : Store) : Store :=
  let updatedConversations :=
    fmap (λ conv : Conversation,
           if bool_decide (conv_id conv = conversationId)
           then
             let updatedMessages := messages conv ++ [message] in
             let title' :=
               if bool_decide (title conv = "New Conversation")
                  && bool_decide (length updatedMessages = 1%nat)
               then generateTitle updatedMessages
               else title conv in
             conv_with_updatedAt
               (conv_with_title (conv_with_messages conv updatedMessages) title')
               (now o)
           else conv)
        (conversations s) in
  set_conversations s updatedConversations.

(** The optional third argument [opts?: { isStreaming?: boolean }]. *)
Record UpdateOpts : Type := mkOpts { opts_isStreaming : option bool }.

(** [opts && typeof opts.isStreaming !== 'undefined']: the flag to write. *)
Definition opts_flag (opts : option UpdateOpts) : option bool :=
  opts ≫= opts_isStreaming.

(** [opts && opts.isStreaming] as a condition. *)
Definition opts_streaming (opts : option UpdateOpts) : bool :=
  default false (opts_flag opts).

(** The shared shape of the three [updateLastMessage...] actions: in every
    conversation with the given identifier and at least one message, a copy
    of the message array gets [upd lastMessage] in its last slot;
    [updatedAt] is refreshed unless [opts.isStreaming] is truthy. *)
Definition update_last (upd : ChatMessage → ChatMessage)
    (conversationId : string) (opts : option UpdateOpts) (o : Oracle)
    (s : Store) : Store :=
  set_conversations s
    (fmap (λ conv : Conversation,
            if bool_decide (conv_id conv = conversationId)
               && bool_decide (0 < length (messages conv))%nat
            then
              let updatedMessages := messages conv in
              let i := (length updatedMessages - 1)%nat in
              match updatedMessages !! i with
              | Some lastMessage =>
                  let conv' :=
                    conv_with_messages conv
                      (<[i := upd lastMessage]> updatedMessages) in
                  if opts_streaming opts then conv'
                  else conv_with_updatedAt conv' (now o)
              | None => conv
              end
            else conv)
         (conversations s)).

(** Lines 271-293. *)
Definition updateLastMessage (conversationId content : string)
    (opts : option UpdateOpts) : Oracle → Store → Store :=
  update_last
    (λ lastMessage,
       let m := msg_with_content lastMessage content in
       match opts_flag opts with
       | Some b => msg_with_isStreaming m (Some b)
       | None => m
       end)
    conversationId opts.

(** Lines 295-316. *)
Definition updateLastMessageReasoning (conversationId reasoning : string)
    (opts : option UpdateOpts) : Oracle → Store → Store :=
  update_last
    (λ lastMessage,
       let m := msg_with_reasoning lastMessage (Some reasoning) in
       match opts_flag opts with
       | Some b => msg_with_isReasoningStreaming m (Some b)
       | None => m
       end)
    conversationId opts.

(** Lines 318-339. *)
Definition updateLastMessageToolOutput (conversationId output : string)
    (opts : option UpdateOpts) : Oracle → Store → Store :=
  update_last
    (λ lastMessage,
       let m := msg_with_toolOutput lastMessage (Some output) in
       match opts_flag opts with
       | Some b => msg_with_isToolStreaming m (Some b)
       | None => m
       end)
    conversationId opts.

(** Lines 341-352. *)
Definition getCurrentConversation (s : Store) : option Conversation :=
  match currentConversationId s with
  | Some id => find_conv id (conversations s)
  | None => None
  end.

Definition getCurrentMessages (s : Store) : list ChatMessage :=
  match getCurrentConversation s with
  | Some current => messages current
  | None => []
  end.

(** ** The persistence options (lines 354-394) *)

(** The storage handed to [createJSONStorage]: [base] is
    [window.localStorage], [cache] holds the own properties of the
    [__PERSIST_CACHE] object, a plain object used as a map from names to
    the value last written. [writes] is a ghost log of the calls of
    [base.setItem], oldest first. *)
Record Storage : Type := mkStorage {
  base : gmap string string;
  cache : gmap string string;
  writes : list (string * string);
}.

(** A fresh window: nothing cached yet. *)
Definition fresh_storage (base : gmap string string) : Storage :=
  mkStorage base ∅ [].

(** [cache[name]] when it is a string. On a plain object the name
    "__proto__" reads the prototype, an object, whatever was assigned; a
    name that is no own property reads undefined or a method of the
    prototype. None of these is [===] to a string. *)
Definition cache_get (name : string) (cache : gmap string string)
    : option string :=
  if bool_decide (name = "__proto__") then None else cache !! name.

(** [cache[name] = value] with a string [value]: assigning a string to
    "__proto__" stores nothing; any other name becomes an own property. *)
Definition cache_set (name value : string) (cache : gmap string string)
    : gmap string string :=
  if bool_decide (name = "__proto__") then cache else <[name := value]> cache.

Definition getItem (name : string) (st : Storage) : option string :=
  base st !! name.

Definition removeItem (name : string) (st : Storage) : Storage :=
  mkStorage (delete name (base st)) (cache st) (writes st).

(** Lines 364-368. *)
Definition setItem (name value : string) (st : Storage) : Storage :=
  if bool_decide (cache_get name (cache st) = Some value) then st
  else mkStorage (<[name := value]> (base st))
         (cache_set name value (cache st))
         (writes st ++ [(name, value)]).

(** The calls the persist middleware can make on the storage. *)
Inductive StorageCall : Type :=
  | CallGetItem (name : string)
  | CallRemoveItem (name : string)
  | CallSetItem (name value : string).

Definition storage_call (c : StorageCall) (st : Storage) : Storage :=
  match c with
  | CallGetItem _ => st
  | CallRemoveItem name => removeItem name st
  | CallSetItem name value => setItem name value st
  end.

Definition storage_calls (cs : list StorageCall) (st : Storage) : Storage :=
  foldl (λ st c, storage_call c st) st cs.

(** The value most recently passed to [setItem] for [name] in a sequence of
    calls, if any. *)
Fixpoint last_set (name : string) (cs : list StorageCall) : option string :=
  match cs with
  | [] => None
  | c :: cs' =>
      match last_set name cs' with
      | Some v => Some v
      | None =>
          match c with
          | CallSetItem name' value =>
              if bool_decide (name' = name) then Some value else None
          | _ => None
          end
      end
  end.

(** What [partialize] hands to the storage: [p_conversations] is [None] when
    the object has no [conversations] field. *)
Record Persisted : Type := mkPersisted {
  p_config : CodexConfig;
  p_conversations : option (list Conversation);
  p_currentConversationId : option string;
}.

(** Lines 371-385. [a ?? b] is [b] exactly when [a] is undefined. *)
Definition partialize (state : Store) : Persisted :=
  if streamingActive state
  then mkPersisted (config state) None (currentConversationId state)
  else mkPersisted (config state)
         (Some (default (conversations state) (conversationsSnapshot state)))
         (currentConversationId state).

(** The version of the persisted format, line 356. *)
Definition store_version : Z := 4.

(** Lines 386-393. The persisted state has type [any]: an object read by
    [JSON.parse], here a finite map from field names to values.
    [DEFAULT_CONFIG] is imported from types/codex. *)
Definition migrate (DEFAULT_CONFIG : CodexConfig)
    (persistedState : gmap string jsval) (version : Z) : gmap string jsval :=
  if version <? 4 then
    let config' :=
      match persistedState !! "config" with
      | Some c => if truthy c then c else DEFAULT_CONFIG
      | None => DEFAULT_CONFIG
      end in
    <["config" := config']> persistedState
  else persistedState.

(** ** The codex events (types/codex) *)

(** The payload of an event, a union tagged by [type]. [other_event] stands
    for every tag the handler has no case for. *)
Inductive EventMsg : Type :=
  | session_configured (session_id : string)
  | task_started
  | task_complete
  | turn_complete
  | agent_message (message : string) (last_agent_message : option string)
  | agent_message_delta (delta : string)
  | agent_reasoning_delta (delta : string)
  | exec_approval_request (command cwd : string)
  | patch_approval_request (patch : string) (files : list string)
  | error (message : string)
  | shutdown_complete
  | background_event (message : string)
  | exec_command_begin
  | exec_command_output_delta (stream : string)
  | exec_command_end
  | other_event (type : string).

Record CodexEvent : Type := mkEvent {
  event_id : string;
  msg : EventMsg;
}.

Inductive ApprovalRequest : Type :=
  | ExecApproval (id command cwd : string)
  | PatchApproval (id patch : string) (files : list string).

Inductive MessageType : Type := TypeUser | TypeAgent | TypeSystem.

(** The message format of the hook; [cm_timestamp] is the [Date]'s
    [getTime()]. *)
Record CodexChatMessage : Type := mkCodexChatMessage {
  cm_id : string;
  cm_type : MessageType;
  cm_content : string;
  cm_timestamp : Z;
  cm_isStreaming : option bool;
}.

(** ** The hook (useCodexEvents) *)

(** Lines 12-20. *)
Definition getEventSessionId (event : CodexEvent) : option string :=
  match msg event with
  | session_configured session_id => Some session_id
  | _ => None
  end.

(** What one call of the hook binds for good: its [sessionId] argument and
    the [conversations] array it read from the store when it was called
    (line 26; [seen_conversations] here). The closures below keep both; the
    store's actions replace the store's array by a new one and leave this
    one as it was. The listener is registered by an effect that depends on
    [sessionId] alone (line 234), so the events and the timeouts keep
    reaching the closures of that one call while the store changes. *)
Record Closure : Type := mkClosure {
  sessionId : string;
  seen_conversations : list Conversation;
}.

(** What the closures can change: the store (through its actions), the
    buffer [bufferRef.current], the variable [flushTimer], and, outside the
    hook, the timeouts that were requested and have not fired yet (handle
    and delay in milliseconds; every one of them calls [flushBuffer]) and the
    requests passed to [onApprovalRequest], oldest first. *)
Record HookState : Type := mkHookState {
  store : Store;
  bufferRef : string;
  flushTimer : option nat;
  timeouts : list (nat * Z);
  next_handle : nat;
  approvals : list ApprovalRequest;
}.

Definition with_store (w : HookState) (s : Store) : HookState :=
  mkHookState s (bufferRef w) (flushTimer w) (timeouts w) (next_handle w)
    (approvals w).

Definition with_approval (w : HookState) (r : ApprovalRequest) : HookState :=
  mkHookState (store w) (bufferRef w) (flushTimer w) (timeouts w)
    (next_handle w) (approvals w ++ [r]).

(** The state of a hook that was just called on store [s]. *)
Definition fresh_hook_state (s : Store) : HookState :=
  mkHookState s "" None [] 1 [].

(** The hook as called while the store is [s]. *)
Definition render (sessionId : string) (s : Store) : Closure :=
  mkClosure sessionId (conversations s).

(** [msgs[msgs.length - 1]], undefined on an empty array. *)
Definition last_of {A : Type} (msgs : list A) : option A :=
  msgs !! (length msgs - 1)%nat.

(** [conv?.messages || []] *)
Definition messages_of (conv : option Conversation) : list ChatMessage :=
  match conv with
  | Some c => messages c
  | None => []
  end.

(** Lines 32-41. *)
Definition flushBuffer (cl : Closure) (o : Oracle) (w : HookState) : HookState :=
  if negb (str_truthy (bufferRef w)) then w
  else
    let conv := find_conv (sessionId cl) (seen_conversations cl) in
    let msgs := messages_of conv in
    let last := last_of msgs in
    let newContent :=
      str_or (from_option content "" last) "" +:+ bufferRef w in
    let s' :=
      updateLastMessage (sessionId cl) newContent (Some (mkOpts (Some true)))
        o (store w) in
    mkHookState s' "" None (timeouts w) (next_handle w) (approvals w).

(** Lines 43-60. *)
Definition addMessageToStore (cl : Closure) (message : CodexChatMessage)
    (o : Oracle) (s : Store) : Store :=
  let s1 :=
    match find_conv (sessionId cl) (seen_conversations cl) with
    | Some conversationExists => s
    | None =>
        (createConversation (Some "New Chat") (Some "agent")
           (Some (sessionId cl)) o s).2
    end in
  let conversationMessage :=
    mkChatMessage (cm_id message)
      (match cm_type message with
       | TypeUser => User
       | TypeAgent => Assistant
       | TypeSystem => System
       end)
      (cm_content message) (cm_timestamp message) None None None None None in
  addMessage (sessionId cl) conversationMessage o s1.

(** [`${sessionId}-${Date.now()}-${Math.random().toString(36).substring(2, 11)}`] *)
Definition agent_message_id (cl : Closure) (o : Oracle) : string :=
  sessionId cl +:+ "-" +:+ pretty (now o) +:+ "-" +:+ random36 o.

Definition error_message_id (cl : Closure) (o : Oracle) : string :=
  sessionId cl +:+ "-error-" +:+ pretty (now o) +:+ "-" +:+ random36 o.

(** The conversation the two [agent_message...] cases work on (lines 104-108
    and 129-133): the one in the array the hook has seen or, when there is
    none, the one in the store after [createConversation]. *)
Definition ensure_conversation (cl : Closure) (o : Oracle) (s : Store)
    : option Conversation * Store :=
  match find_conv (sessionId cl) (seen_conversations cl) with
  | Some conv => (Some conv, s)
  | None =>
      let s' :=
        (createConversation (Some "New Chat") (Some "agent")
           (Some (sessionId cl)) o s).2 in
      (find_conv (sessionId cl) (conversations s'), s')
  end.

(** [last && last.role === 'assistant'] *)
Definition last_is_assistant (last : option ChatMessage) : bool :=
  match last with
  | Some m => bool_decide (role m = Assistant)
  | None => false
  end.

(** The body of the cases [task_complete] and [turn_complete]
    (lines 75-98). *)
Definition complete (cl : Closure) (o : Oracle) (w : HookState) : HookState :=
  let w1 := flushBuffer cl o w in
  let s2 := setSessionLoading (sessionId cl) false (store w1) in
  let conv := find_conv (sessionId cl) (seen_conversations cl) in
  let msgs := messages_of conv in
  match last_of msgs with
  | Some lastMessage =>
      with_store w1
        (updateLastMessage (sessionId cl) (str_or (content lastMessage) "")
           (Some (mkOpts (Some false))) o s2)
  | None => with_store w1 s2
  end.

(** Lines 62-209. Calls of [console.log] are left out. *)
Definition handleCodexEvent (cl : Closure) (o : Oracle) (event : CodexEvent)
    (w : HookState) : HookState :=
  match msg event with
  | session_configured _ => w
  | task_started =>
      with_store w (setSessionLoading (sessionId cl) true (store w))
  | task_complete => complete cl o w
  | turn_complete => complete cl o w
  | agent_message message last_agent_message =>
      let content := str_or (opt_str_or last_agent_message message) "" in
      if str_truthy content then
        let '(conv, s1) := ensure_conversation cl o (store w) in
        let msgs := messages_of conv in
        let last := last_of msgs in
        if last_is_assistant last then
          with_store w
            (updateLastMessage (sessionId cl) content
               (Some (mkOpts (Some true))) o s1)
        else
          let agentMessage :=
            mkCodexChatMessage (agent_message_id cl o) TypeAgent content
              (now o) (Some true) in
          with_store w (addMessageToStore cl agentMessage o s1)
      else w
  | agent_message_delta delta =>
      let '(conv, s1) := ensure_conversation cl o (store w) in
      let msgs := messages_of conv in
      let last := last_of msgs in
      let s2 :=
        if negb (last_is_assistant last) then
          let agentMessage :=
            mkCodexChatMessage (agent_message_id cl o) TypeAgent ""
              (now o) (Some true) in
          addMessageToStore cl agentMessage o s1
        else s1 in
      let buffer := bufferRef w +:+ delta in
      match flushTimer w with
      | None =>
          mkHookState s2 buffer (Some (next_handle w))
            (timeouts w ++ [(next_handle w, 80)]) (S (next_handle w))
            (approvals w)
      | Some _ =>
          mkHookState s2 buffer (flushTimer w) (timeouts w) (next_handle w)
            (approvals w)
      end
  | agent_reasoning_delta _ => w
  | exec_approval_request command cwd =>
      with_approval w (ExecApproval (event_id event) command cwd)
  | patch_approval_request patch files =>
      with_approval w (PatchApproval (event_id event) patch files)
  | error message =>
      let errorMessage :=
        mkCodexChatMessage (error_message_id cl o) TypeSystem
          ("Error: " +:+ message) (now o) None in
      with_store w
        (setSessionLoading (sessionId cl) false
           (addMessageToStore cl errorMessage o (store w)))
  | shutdown_complete => w
  | background_event _ => w
  | exec_command_begin => w
  | exec_command_output_delta _ => w
  | exec_command_end => w
  | other_event _ => w
  end.

(** A timeout fires: the environment takes it off its list and calls
    [flushBuffer]. A handle that is not pending does nothing. *)
Definition fire_timeout (cl : Closure) (o : Oracle) (handle : nat)
    (w : HookState) : HookState :=
  if bool_decide (handle ∈ (timeouts w).*1) then
    flushBuffer cl o
      (mkHookState (store w) (bufferRef w) (flushTimer w)
         (filter (λ t, t.1 ≠ handle) (timeouts w)) (next_handle w)
         (approvals w))
  else w.

(** [s.replace(pattern, replacement)] with a string pattern: the first
    occurrence is replaced, wherever it is. *)
Fixpoint replace_first (pattern replacement s : string) : string :=
  if String.prefix pattern s
  then replacement +:+ String.substring (String.length pattern)
                         (String.length s - String.length pattern) s
  else match s with
       | EmptyString => EmptyString
       | String c s' => String c (replace_first pattern replacement s')
       end.

(** What the listener did with an event: returned at once, or called the
    handler switch, which left the state [w]. *)
Inductive Outcome : Type :=
  | Ignored
  | Handled (w : HookState).

(** The callback passed to [listen], lines 215-229. *)
Definition listen_callback (cl : Closure) (o : Oracle) (codexEvent : CodexEvent)
    (w : HookState) : Outcome :=
  let eventSessionId := getEventSessionId codexEvent in
  let ourSessionId := replace_first "codex-event-" "" (sessionId cl) in
  if match eventSessionId with
     | Some sid => str_truthy sid && bool_decide (sid ≠ ourSessionId)
     | None => false
     end
  then Ignored
  else Handled (handleCodexEvent cl o codexEvent w).

(** The state after the listener has run. *)
Definition state_after (out : Outcome) (w : HookState) : HookState :=
  match out with
  | Ignored => w
  | Handled w' => w'
  end.

(** The effect of lines 211-234: the hook listens only when its [sessionId]
    is truthy. *)
Definition listener (cl : Closure)
    : option (Oracle → CodexEvent → HookState → Outcome) :=
  if str_truthy (sessionId cl) then Some (listen_callback cl) else None.

(** What reaches the closures of one hook call once its listener is
    registered (a hook with an empty [sessionId] registers none, see
    [listener]): events of the channel and timeouts that fire. *)
Inductive Stimulus : Type :=
  | Event (e : CodexEvent)
  | Timeout (handle : nat).

Definition react (cl : Closure) (o : Oracle) (x : Stimulus) (w : HookState)
    : HookState :=
  match x with
  | Event e => state_after (listen_callback cl o e w) w
  | Timeout handle => fire_timeout cl o handle w
  end.

(** A run: each stimulus comes with the oracle read while it is handled. *)
Definition run (cl : Closure) (xs : list (Oracle * Stimulus)) (w : HookState)
    : HookState :=
  foldl (λ w ox, react cl ox.1 ox.2 w) w xs.

(** ** The store on a heap of JavaScript objects

    The value-level actions above say what the new state is; this section
    says which objects the actions allocate, read and write, so that sharing
    between the live conversation list and the snapshot is visible. An
    address is an index into the heap, and allocation appends. *)

Abbreviation loc := nat (only parsing).

Inductive HObj : Type :=
  | OMessage (m : ChatMessage)
  | OConversation (conv : ConversationOf loc)
  | OArray (elems : list loc).

Abbreviation Heap := (list HObj) (only parsing).

Abbreviation HStore := (StoreOf loc).

(** Computations on the heap; [None] is a [TypeError] (a reference that does
    not hold what the code expects). *)
Definition HeapM (A : Type) : Type := Heap → option (A * Heap).

Definition hret {A : Type} (a : A) : HeapM A := λ h, Some (a, h).

Definition hbind {A B : Type} (m : HeapM A) (k : A → HeapM B) : HeapM B :=
  λ h, match m h with
       | Some (a, h') => k a h'
       | None => None
       end.

Notation "'let!' x ':=' m 'in' k" := (hbind m (λ x, k))
  (at level 10, x name, m at level 100, k at level 200, only parsing).

(** An object or array literal. *)
Definition alloc (obj : HObj) : HeapM loc :=
  λ h, Some (length h, h ++ [obj]).

Definition get_message (l : loc) : HeapM ChatMessage :=
  λ h, match h !! l with
       | Some (OMessage m) => Some (m, h)
       | _ => None
       end.

Definition get_conv (l : loc) : HeapM (ConversationOf loc) :=
  λ h, match h !! l with
       | Some (OConversation conv) => Some (conv, h)
       | _ => None
       end.

Definition get_array (l : loc) : HeapM (list loc) :=
  λ h, match h !! l with
       | Some (OArray elems) => Some (elems, h)
       | _ => None
       end.

(** [a[i] = x] on the array at [l]. *)
Definition array_store (l : loc) (i : nat) (x : loc) : HeapM () :=
  λ h, match h !! l with
       | Some (OArray elems) => Some ((), <[l := OArray (<[i := x]> elems)]> h)
       | _ => None
       end.

Fixpoint hmapM {A B : Type} (f : A → HeapM B) (xs : list A) : HeapM (list B) :=
  match xs with
  | [] => hret []
  | x :: xs' =>
      let! y := f x in
      let! ys := hmapM f xs' in
      hret (y :: ys)
  end.

(** [state.conversations.map(f)]: [f] gets the reference of a conversation
    and the object there, and gives back the reference [map] stores. *)
Definition h_map_conversations (f : loc → ConversationOf loc → HeapM loc)
    (s : HStore) : HeapM HStore :=
  let! arr := get_array (conversations s) in
  let! arr' := hmapM (λ l, let! conv := get_conv l in f l conv) arr in
  let! l' := alloc (OArray arr') in
  hret (set_conversations s l').

(** Lines 177-185: a new object per conversation, with a copy
    ([slice]) of its message array; the message objects are shared. *)
Definition h_snapshotConversations (s : HStore) : HeapM HStore :=
  let! arr := get_array (conversations s) in
  let! snapshot :=
    hmapM (λ l,
             let! conv := get_conv l in
             let! msgs := get_array (messages conv) in
             let! copy := alloc (OArray msgs) in
             alloc (OConversation (conv_with_messages conv copy)))
          arr in
  let! l' := alloc (OArray snapshot) in
  hret (set_conversationsSnapshot s (Some l')).

(** Lines 246-269; [message] is the reference of the caller's object. *)
Definition h_addMessage (conversationId : string) (message : loc) (o : Oracle)
    : HStore → HeapM HStore :=
  h_map_conversations
    (λ l conv,
       if bool_decide (conv_id conv = conversationId) then
         let! msgs := get_array (messages conv) in
         let! updatedMessages := alloc (OArray (msgs ++ [message])) in
         let! title' :=
           (if bool_decide (title conv = "New Conversation")
               && bool_decide (length (msgs ++ [message]) = 1%nat)
            then
              let! ms := hmapM get_message (msgs ++ [message]) in
              hret (generateTitle ms)
            else hret (title conv)) in
         alloc (OConversation
                  (conv_with_updatedAt
                     (conv_with_title (conv_with_messages conv updatedMessages)
                        title')
                     (now o)))
       else hret l).

(** The three [updateLastMessage...] actions: [updatedMessages] is a fresh
    copy of the message array, and the one assignment into an array,
    [updatedMessages[updatedMessages.length - 1] = {...}], goes to that
    copy. *)
Definition h_update_last (upd : ChatMessage → ChatMessage)
    (conversationId : string) (opts : option UpdateOpts) (o : Oracle)
    : HStore → HeapM HStore :=
  h_map_conversations
    (λ l conv,
       if bool_decide (conv_id conv = conversationId) then
         let! msgs := get_array (messages conv) in
         if bool_decide (0 < length msgs)%nat then
           let! updatedMessages := alloc (OArray msgs) in
           let i := (length msgs - 1)%nat in
           match msgs !! i with
           | Some ml =>
               let! lastMessage := get_message ml in
               let! m' := alloc (OMessage (upd lastMessage)) in
               let! _ := array_store updatedMessages i m' in
               let conv' := conv_with_messages conv updatedMessages in
               alloc (OConversation
                        (if opts_streaming opts then conv'
                         else conv_with_updatedAt conv' (now o)))
           | None => hret l
           end
         else hret l
       else hret l).

Definition h_updateLastMessage (conversationId content : string)
    (opts : option UpdateOpts) : Oracle → HStore → HeapM HStore :=
  h_update_last
    (λ lastMessage,
       let m := msg_with_content lastMessage content in
       match opts_flag opts with
       | Some b => msg_with_isStreaming m (Some b)
       | None => m
       end)
    conversationId opts.

Definition h_updateLastMessageReasoning (conversationId reasoning : string)
    (opts : option UpdateOpts) : Oracle → HStore → HeapM HStore :=
  h_update_last
    (λ lastMessage,
       let m := msg_with_reasoning lastMessage (Some reasoning) in
       match opts_flag opts with
       | Some b => msg_with_isReasoningStreaming m (Some b)
       | None => m
       end)
    conversationId opts.

Definition h_updateLastMessageToolOutput (conversationId output : string)
    (opts : option UpdateOpts) : Oracle → HStore → HeapM HStore :=
  h_update_last
    (λ lastMessage,
       let m := msg_with_toolOutput lastMessage (Some output) in
       match opts_flag opts with
       | Some b => msg_with_isToolStreaming m (Some b)
       | None => m
       end)
    conversationId opts.

Definition h_updateConversationTitle (id title : string) (o : Oracle)
    : HStore → HeapM HStore :=
  h_map_conversations
    (λ l conv,
       if bool_decide (conv_id conv = id)
       then alloc (OConversation
                     (conv_with_updatedAt (conv_with_title conv title) (now o)))
       else hret l).

Definition h_toggleFavorite (id : string) (o : Oracle)
    : HStore → HeapM HStore :=
  h_map_conversations
    (λ l conv,
       if bool_decide (conv_id conv = id)
       then alloc (OConversation
                     (conv_with_updatedAt
                        (conv_with_isFavorite conv
                           (Some (negb (default false (isFavorite conv)))))
                        (now o)))
       else hret l).

(** Lines 135-154: [filter] reads each conversation's [id] and keeps the
    references that pass. *)
Definition h_deleteConversation (id : string) (s : HStore) : HeapM HStore :=
  let! arr := get_array (conversations s) in
  let! convs := hmapM get_conv arr in
  let kept := filter (λ lc, conv_id lc.2 ≠ id) (zip arr convs) in
  let! updatedConversations := alloc (OArray kept.*1) in
  let newCurrentId :=
    if bool_decide (currentConversationId s = Some id)
    then match kept with
         | lc :: _ => Some (conv_id lc.2)
         | [] => None
         end
    else currentConversationId s in
  hret (set_currentConversationId
          (set_conversations s updatedConversations) newCurrentId).

(** *** Reading a heap back into values *)

Definition read_message (h : Heap) (l : loc) : option ChatMessage :=
  match h !! l with
  | Some (OMessage m) => Some m
  | _ => None
  end.

Definition read_array (h : Heap) (l : loc) : option (list loc) :=
  match h !! l with
  | Some (OArray elems) => Some elems
  | _ => None
  end.

Definition read_messages (h : Heap) (l : loc) : option (list ChatMessage) :=
  read_array h l ≫= mapM (read_message h).

Definition read_conversation (h : Heap) (l : loc) : option Conversation :=
  match h !! l with
  | Some (OConversation conv) =>
      conv_with_messages conv <$> read_messages h (messages conv)
  | _ => None
  end.

Definition read_conversations (h : Heap) (l : loc)
    : option (list Conversation) :=
  read_array h l ≫= mapM (read_conversation h).

Definition read_snapshot (h : Heap) (s : HStore)
    : option (option (list Conversation)) :=
  match conversationsSnapshot s with
  | Some l => Some <$> read_conversations h l
  | None => Some None
  end.

Definition read_store (h : Heap) (s : HStore) : option Store :=
  convs ← read_conversations h (conversations s);
  snap ← read_snapshot h s;
  Some (mkStore (config s) convs snap (currentConversationId s)
          (sessionDisconnected s) (pendingUserInput s)
          (pendingNewConversation s) (streamingActive s)).

(** The mutations of the live conversations. *)
Inductive Mutation : Type :=
  | MAddMessage (conversationId : string) (message : ChatMessage)
  | MUpdateLastMessage (conversationId content : string)
      (opts : option UpdateOpts)
  | MUpdateLastMessageReasoning (conversationId reasoning : string)
      (opts : option UpdateOpts)
  | MUpdateLastMessageToolOutput (conversationId output : string)
      (opts : option UpdateOpts)
  | MUpdateConversationTitle (id title : string)
  | MToggleFavorite (id : string)
  | MDeleteConversation (id : string).

(** A mutation on values ... *)
Definition mutate (mu : Mutation) (o : Oracle) (s : Store) : Store :=
  match mu with
  | MAddMessage cid message => addMessage cid message o s
  | MUpdateLastMessage cid content opts => updateLastMessage cid content opts o s
  | MUpdateLastMessageReasoning cid r opts =>
      updateLastMessageReasoning cid r opts o s
  | MUpdateLastMessageToolOutput cid out opts =>
      updateLastMessageToolOutput cid out opts o s
  | MUpdateConversationTitle id title => updateConversationTitle id title o s
  | MToggleFavorite id => toggleFavorite id o s
  | MDeleteConversation id => deleteConversation id s
  end.

(** ... and on the heap; the caller of [addMessage] builds the message
    object first. *)
Definition h_mutate (mu : Mutation) (o : Oracle) (s : HStore) : HeapM HStore :=
  match mu with
  | MAddMessage cid message =>
      let! l := alloc (OMessage message) in h_addMessage cid l o s
  | MUpdateLastMessage cid content opts =>
      h_updateLastMessage cid content opts o s
  | MUpdateLastMessageReasoning cid r opts =>
      h_updateLastMessageReasoning cid r opts o s
  | MUpdateLastMessageToolOutput cid out opts =>
      h_updateLastMessageToolOutput cid out opts o s
  | MUpdateConversationTitle id title => h_updateConversationTitle id title o s
  | MToggleFavorite id => h_toggleFavorite id o s
  | MDeleteConversation id => h_deleteConversation id s
  end.

Fixpoint h_mutate_all (mus : list (Mutation * Oracle)) (s : HStore)
    : HeapM HStore :=
  match mus with
  | [] => hret s
  | (mu, o) :: mus' =>
      let! s' := h_mutate mu o s in h_mutate_all mus' s'
  end.

Definition mutate_all (mus : list (Mutation * Oracle)) (s : Store) : Store :=
  foldl (λ s muo, mutate muo.1 muo.2 s) s mus.

(** A heap computation run on [h] returns, keeps what [h] holds, and ends
    in a result and a heap that satisfy [Q]. *)
Definition hspec {A : Type} (m : HeapM A) (h : Heap) (Q : A → Heap → Prop)
    : Prop :=
  ∃ a h', m h = Some (a, h') ∧ h `prefix_of` h' ∧ Q a h'.

(** ** The actions of the store as one type *)

(** Line 61-67: the helper passes no session identifier. *)
Definition createConversationWithLatestSession (title : option string)
    (mode : option ChatMode) (o : Oracle) (s : Store) : string * Store :=
  createConversation title (Some (default "agent" mode)) None o s.

(** Every action of the [ConversationStore] interface that can change the
    state (the two getters cannot). *)
Inductive Action : Type :=
  | ASetConfig (config : CodexConfig)
  | ACreateConversation (title : option string) (mode : option ChatMode)
      (sessionId : option string)
  | ACreateConversationWithLatestSession (title : option string)
      (mode : option ChatMode)
  | ASelectHistoryConversation (conversation : Conversation)
  | ADeleteConversation (id : string)
  | ASetCurrentConversation (id : string)
  | AUpdateConversationTitle (id title : string)
  | AUpdateConversationMode (id : string) (mode : ChatMode)
  | AToggleFavorite (id : string)
  | ASnapshotConversations
  | ASetStreamingActive (active : bool)
  | ASetSessionDisconnected (disconnected : bool)
  | ASetPendingUserInput (input : option string)
  | AAddDisconnectionWarning (conversationId : string)
  | ASetSessionLoading (sessionId : string) (loading : bool)
  | ASetPendingNewConversation (pending : bool)
  | AAddMessage (conversationId : string) (message : ChatMessage)
  | AUpdateLastMessage (conversationId content : string)
      (opts : option UpdateOpts)
  | AUpdateLastMessageReasoning (conversationId reasoning : string)
      (opts : option UpdateOpts)
  | AUpdateLastMessageToolOutput (conversationId output : string)
      (opts : option UpdateOpts).

Definition act (a : Action) (o : Oracle) (s : Store) : Store :=
  match a with
  | ASetConfig config => setConfig config s
  | ACreateConversation title mode sessionId =>
      (createConversation title mode sessionId o s).2
  | ACreateConversationWithLatestSession title mode =>
      (createConversationWithLatestSession title mode o s).2
  | ASelectHistoryConversation conversation =>
      selectHistoryConversation conversation s
  | ADeleteConversation id => deleteConversation id s
  | ASetCurrentConversation id => setCurrentConversation id s
  | AUpdateConversationTitle id title => updateConversationTitle id title o s
  | AUpdateConversationMode id mode => updateConversationMode id mode o s
  | AToggleFavorite id => toggleFavorite id o s
  | ASnapshotConversations => snapshotConversations s
  | ASetStreamingActive active => setStreamingActive active s
  | ASetSessionDisconnected disconnected =>
      setSessionDisconnected disconnected s
  | ASetPendingUserInput input => setPendingUserInput input s
  | AAddDisconnectionWarning conversationId =>
      addDisconnectionWarning conversationId o s
  | ASetSessionLoading sessionId loading =>
      setSessionLoading sessionId loading s
  | ASetPendingNewConversation pending => setPendingNewConversation pending s
  | AAddMessage conversationId message => addMessage conversationId message o s
  | AUpdateLastMessage conversationId content opts =>
      updateLastMessage conversationId content opts o s
  | AUpdateLastMessageReasoning conversationId reasoning opts =>
      updateLastMessageReasoning conversationId reasoning opts o s
  | AUpdateLastMessageToolOutput conversationId output opts =>
      updateLastMessageToolOutput conversationId output opts o s
  end.

(** The identifiers of a conversation list, in order. *)
Definition ids (convs : list Conversation) : list string :=
  conv_id <$> convs.

(** The identifiers are pairwise distinct. *)
Definition unique_ids (convs : list Conversation) : Prop :=
  NoDup (ids convs).

(** ** Sample data, for the examples below *)

Definition sample_oracle : Oracle := mkOracle 1700000000000 "k3j9x0q2a".

Definition sample_message (id : string) (r : Role) (text : string)
    : ChatMessage :=
  mkChatMessage id r text 1699999999000 None None None None None.

Definition sample_conversation (id : string) (msgs : list ChatMessage)
    : Conversation :=
  mkConversation id "New Chat" msgs "agent" 1699999990000 1699999990000
    (Some false) None.

Definition sample_store (convs : list Conversation) : Store :=
  mkStore (JObj []) convs None None false None false false.

(** ** What the claims about the hook look at *)

(** The last message of the conversation [sid] in the store, if any. *)
Definition last_message (sid : string) (s : Store) : option ChatMessage :=
  conv ← find_conv sid (conversations s); last_of (messages conv).

(** The same in the array the hook has seen: the [last] of [flushBuffer] and
    [msgs[msgs.length - 1]] of the two terminal cases. *)
Definition seen_last_message (cl : Closure) : option ChatMessage :=
  last_of (messages_of (find_conv (sessionId cl) (seen_conversations cl))).

(** A store with one conversation "s1" that holds one assistant message
    "Hi", and the hook called for "s1" on that store. *)
Definition streaming_store : Store :=
  sample_store [sample_conversation "s1" [sample_message "m1" Assistant "Hi"]].

Definition streaming_hook : Closure := render "s1" streaming_store.

Definition delta_event (text : string) : Stimulus :=
  Event (mkEvent "e" (agent_message_delta text)).

(** A heap that holds the store [streaming_store]: the message at 0, the
    message array at 1, the conversation at 2, the conversation array
    at 3. *)
Definition streaming_heap : Heap :=
  [OMessage (sample_message "m1" Assistant "Hi");
   OArray [0%nat];
   OConversation
     (mkConversation "s1" "New Chat" 1%nat "agent" 1699999990000
        1699999990000 (Some false) None);
   OArray [2%nat]].

Definition streaming_hstore : HStore :=
  mkStore (JObj []) 3%nat None None false None false false.

(** ** What the further properties look at *)

(** The actions that neither add a conversation to the list nor take one
    off it: all but the two that create and the one that deletes. *)
Definition keeps_list (a : Action) : bool :=
  match a with
  | ACreateConversation _ _ _ => false
  | ACreateConversationWithLatestSession _ _ => false
  | ADeleteConversation _ => false
  | _ => true
  end.

(** The actions that write what [partialize] reads besides the live list:
    the snapshot and the streaming flag. *)
Definition writes_persist_gate (a : Action) : bool :=
  match a with
  | ASnapshotConversations => true
  | ASetStreamingActive _ => true
  | _ => false
  end.

(** The identifiers of a message list, in order. *)
Definition message_ids (msgs : list ChatMessage) : list string :=
  msg_id <$> msgs.

(** [pattern] occurs in [s]. *)
Definition occurs_in (pattern s : string) : Prop :=
  ∃ before after, s = before +:+ pattern +:+ after.

(** The approval request a stimulus carries, if any, as the handler builds
    it (lines 157-173). *)
Definition requested (x : Stimulus) : list ApprovalRequest :=
  match x with
  | Event e =>
      match msg e with
      | exec_approval_request command cwd =>
          [ExecApproval (event_id e) command cwd]
      | patch_approval_request patch files =>
          [PatchApproval (event_id e) patch files]
      | _ => []
      end
  | Timeout _ => []
  end.

(** The text fragment a stimulus carries: that of an [agent_message_delta]
    event, nothing otherwise. *)
Definition fragment (x : Stimulus) : string :=
  match x with
  | Event e =>
      match msg e with
      | agent_message_delta delta => delta
      | _ => ""
      end
  | Timeout _ => ""
  end.

Definition is_fragment (x : Stimulus) : bool :=
  match x with
  | Event e =>
      match msg e with
      | agent_message_delta _ => true
      | _ => false
      end
  | Timeout _ => false
  end.

(** The loading flag an event asks for: [task_started] raises it, the two
    terminal events and [error] clear it. *)
Definition loading_after (m : EventMsg) : option bool :=
  match m with
  | task_started => Some true
  | task_complete => Some false
  | turn_complete => Some false
  | error _ => Some false
  | _ => None
  end.

(** * Properties *)

(** ** Truthiness *)

Lemma str_truthy_false (s : string) : str_truthy s = false ↔ s = "".
Proof. destruct s; simpl; split; congruence. Qed.

Lemma str_truthy_true (s : string) : str_truthy s = true ↔ s ≠ "".
Proof. destruct s; simpl; split; congruence. Qed.

Lemma str_or_empty (s : string) : str_or s "" = s.
Proof. by destruct s. Qed.

Lemma set_conversations_same {C : Type} (s : StoreOf C) :
  set_conversations s (conversations s) = s.
Proof. by destruct s. Qed.

(** ** The persisted subset *)

(** C1. [partialize] always returns the fields [config] and
    [currentConversationId] of the state. While [streamingActive] is true the
    result has no conversation list; while it is false the result has one:
    the snapshot when there is a snapshot, the live list otherwise. *)
Theorem partialize_policy (state : Store) :
  p_config (partialize state) = config state
  ∧ p_currentConversationId (partialize state) = currentConversationId state
  ∧ (streamingActive state = true →
     p_conversations (partialize state) = None)
  ∧ (streamingActive state = false →
     ∀ snapshot, conversationsSnapshot state = Some snapshot →
       p_conversations (partialize state) = Some snapshot)
  ∧ (streamingActive state = false →
     conversationsSnapshot state = None →
     p_conversations (partialize state) = Some (conversations state)).
Proof.
  unfold partialize.
  destruct (streamingActive state) eqn:Hactive; simpl.
  - repeat split; intros; congruence.
  - repeat split; try congruence.
    + intros _ snapshot ->. reflexivity.
    + intros _ ->. reflexivity.
Qed.

Lemma partialize_policy_example :
  p_conversations (partialize (set_streamingActive streaming_store true))
  = None
  ∧ p_conversations (partialize streaming_store)
    = Some (conversations streaming_store)
  ∧ p_conversations
      (partialize (set_conversationsSnapshot streaming_store (Some [])))
    = Some [].
Proof.
  split_and!.
  - apply (proj1 (proj2 (proj2
             (partialize_policy (set_streamingActive streaming_store true))))).
    reflexivity.
  - apply (proj2 (proj2 (proj2 (proj2 (partialize_policy streaming_store)))));
      reflexivity.
  - apply (proj1 (proj2 (proj2 (proj2
             (partialize_policy
                (set_conversationsSnapshot streaming_store (Some []))))))
             eq_refl []).
    reflexivity.
Defined.

(** ** Looking a conversation up *)

Lemma find_conv_None {M : Type} (id : string) (convs : list (ConversationOf M)) :
  find_conv id convs = None ↔ id ∉ conv_id <$> convs.
Proof.
  unfold find_conv. induction convs as [|c convs IH]; simpl.
  - split; [intros _; apply not_elem_of_nil | done].
  - rewrite not_elem_of_cons. case_bool_decide as Hid.
    + split; [done | intros [Hne _]; congruence].
    + rewrite IH. split; [intros ?; split; [congruence | done] | tauto].
Qed.

Lemma find_conv_Some {M : Type} (id : string) (convs : list (ConversationOf M))
    (conv : ConversationOf M) :
  find_conv id convs = Some conv → conv ∈ convs ∧ conv_id conv = id.
Proof.
  unfold find_conv. intros Hfind. apply find_some in Hfind as [Hin Hid].
  apply list_elem_of_In in Hin. by apply bool_decide_eq_true in Hid.
Qed.

Lemma find_conv_is_Some {M : Type} (id : string)
    (convs : list (ConversationOf M)) :
  is_Some (find_conv id convs) ↔ id ∈ conv_id <$> convs.
Proof.
  destruct (find_conv id convs) as [conv|] eqn:Hfind.
  - split; [intros _ | by eauto].
    apply find_conv_Some in Hfind as [Hin <-].
    apply list_elem_of_fmap. eauto.
  - apply find_conv_None in Hfind.
    split; [by intros [? ?] | done].
Qed.

(** [map] with a function that keeps identifiers keeps the identifiers. *)
Lemma ids_map (f : Conversation → Conversation) (convs : list Conversation) :
  (∀ conv, conv_id (f conv) = conv_id conv) →
  ids (f <$> convs) = ids convs.
Proof.
  intros Hf. unfold ids. rewrite <- list_fmap_compose.
  apply list_fmap_ext. intros i conv _. apply Hf.
Qed.

Lemma ids_filter_sublist (P : Conversation → Prop) `{∀ c, Decision (P c)}
    (convs : list Conversation) :
  ids (filter P convs) `sublist_of` ids convs.
Proof. unfold ids. apply fmap_sublist, sublist_filter. Qed.

(** ** Updates of the last message that find nothing to update *)

Lemma fmap_unchanged {A : Type} (f : A → A) (l : list A) :
  (∀ x, x ∈ l → f x = x) → f <$> l = l.
Proof.
  induction l as [|x l IH]; intros Hf; [done|].
  rewrite fmap_cons. f_equal.
  - apply Hf, list_elem_of_here.
  - apply IH. intros y Hy. by apply Hf, list_elem_of_further.
Qed.

Lemma update_last_nothing (upd : ChatMessage → ChatMessage)
    (conversationId : string) (opts : option UpdateOpts) (o : Oracle)
    (s : Store) :
  (∀ conv, conv ∈ conversations s → conv_id conv = conversationId →
     messages conv = []) →
  update_last upd conversationId opts o s = s.
Proof.
  intros Hempty. unfold update_last.
  rewrite fmap_unchanged; [apply set_conversations_same|].
  intros conv Hin. case_bool_decide as Hid; simpl; [|done].
  rewrite (Hempty conv Hin Hid). simpl. done.
Qed.

(** C9. When every conversation that [conversationId] names has an empty
    message list (in particular when it names none), [updateLastMessage],
    [updateLastMessageReasoning] and [updateLastMessageToolOutput] return
    the store state they were given, whatever their other arguments. *)
Theorem update_last_message_frame (conversationId : string) (s : Store)
    (text : string) (opts : option UpdateOpts) (o : Oracle) :
  (∀ conv, conv ∈ conversations s → conv_id conv = conversationId →
     messages conv = []) →
  updateLastMessage conversationId text opts o s = s
  ∧ updateLastMessageReasoning conversationId text opts o s = s
  ∧ updateLastMessageToolOutput conversationId text opts o s = s.
Proof.
  intros Hempty.
  unfold updateLastMessage, updateLastMessageReasoning,
    updateLastMessageToolOutput.
  repeat split; by apply update_last_nothing.
Qed.

Lemma update_last_message_frame_example :
  let s := sample_store [sample_conversation "s1" [];
                         sample_conversation "s2"
                           [sample_message "m1" Assistant "Hi"]] in
  updateLastMessage "s1" "text" None sample_oracle s = s
  ∧ updateLastMessageReasoning "s1" "text" None sample_oracle s = s
  ∧ updateLastMessageToolOutput "s1" "text" None sample_oracle s = s.
Proof.
  apply update_last_message_frame.
  intros conv Hin Hid. simpl in Hin.
  apply elem_of_cons in Hin as [->|Hin]; [reflexivity|].
  apply elem_of_cons in Hin as [->|Hin]; [discriminate Hid|].
  by apply elem_of_nil in Hin.
Defined.

(** Two readings of "names": the identifier names no conversation, or,
    identifiers being pairwise distinct, the conversation it names has no
    message. *)
Corollary update_last_unnamed (upd : ChatMessage → ChatMessage)
    (conversationId : string) (opts : option UpdateOpts) (o : Oracle)
    (s : Store) :
  find_conv conversationId (conversations s) = None →
  update_last upd conversationId opts o s = s.
Proof.
  intros Hnone. apply update_last_nothing. intros conv Hin Hid.
  apply find_conv_None in Hnone. exfalso. apply Hnone.
  apply list_elem_of_fmap. eauto.
Qed.

Corollary update_last_named_empty (upd : ChatMessage → ChatMessage)
    (conversationId : string) (opts : option UpdateOpts) (o : Oracle)
    (s : Store) (conv : Conversation) :
  unique_ids (conversations s) →
  find_conv conversationId (conversations s) = Some conv →
  messages conv = [] →
  update_last upd conversationId opts o s = s.
Proof.
  intros Huniq Hfind Hempty. apply update_last_nothing.
  intros conv' Hin' Hid'.
  apply find_conv_Some in Hfind as [Hin Hid].
  assert (conv' = conv) as ->; [|done].
  apply list_elem_of_lookup in Hin as [i Hi].
  apply list_elem_of_lookup in Hin' as [j Hj].
  assert (i = j) as ->; [|congruence].
  eapply (NoDup_lookup (ids (conversations s))); [exact Huniq | |].
  - unfold ids. rewrite list_lookup_fmap, Hi. reflexivity.
  - unfold ids. rewrite list_lookup_fmap, Hj. simpl. congruence.
Qed.

(** ** Deleting a conversation *)

(** C10. After [deleteConversation id] no conversation of the list has the
    identifier [id]; the other conversations are all there, unchanged and in
    the same order, and nothing else is; when [id] was the current
    identifier, the current identifier is that of the first remaining
    conversation, or null when none remains; otherwise it is unchanged. *)
Theorem deleteConversation_spec (id : string) (s : Store) :
  let s' := deleteConversation id s in
  (id ∉ ids (conversations s'))
  ∧ (∀ conv, conv ∈ conversations s' ↔
             (conv ∈ conversations s ∧ conv_id conv ≠ id))
  ∧ conversations s' `sublist_of` conversations s
  ∧ (currentConversationId s = Some id →
     currentConversationId s' = conv_id <$> head (conversations s'))
  ∧ (currentConversationId s ≠ Some id →
     currentConversationId s' = currentConversationId s).
Proof.
  simpl. unfold deleteConversation. simpl. split_and!.
  - unfold ids. intros Hin. apply list_elem_of_fmap in Hin as (conv & -> & Hin).
    apply list_elem_of_filter in Hin as [Hne _]. done.
  - intros conv. rewrite list_elem_of_filter. tauto.
  - apply sublist_filter.
  - intros Hcur. rewrite bool_decide_eq_true_2 by done.
    by destruct (filter _ _).
  - intros Hcur. by rewrite bool_decide_eq_false_2.
Qed.

Lemma deleteConversation_example :
  let s := set_currentConversationId
             (sample_store [sample_conversation "s1" [];
                            sample_conversation "s2" []])
             (Some "s1") in
  currentConversationId (deleteConversation "s1" s) = Some "s2"
  ∧ currentConversationId (deleteConversation "s2" s) = Some "s1".
Proof.
  split.
  - apply (proj1 (proj2 (proj2 (proj2 (deleteConversation_spec "s1"
             (set_currentConversationId
                (sample_store [sample_conversation "s1" [];
                               sample_conversation "s2" []])
                (Some "s1"))))))).
    reflexivity.
  - apply (proj2 (proj2 (proj2 (proj2 (deleteConversation_spec "s2"
             (set_currentConversationId
                (sample_store [sample_conversation "s1" [];
                               sample_conversation "s2" []])
                (Some "s1"))))))).
    simpl. discriminate.
Defined.

(** ** Identifiers stay unique *)

Lemma createConversation_unique (title : option string) (mode : option ChatMode)
    (sessionId : option string) (o : Oracle) (s : Store) :
  unique_ids (conversations s) →
  unique_ids (conversations (createConversation title mode sessionId o s).2).
Proof.
  intros Huniq. unfold createConversation.
  destruct (find_conv _ _) eqn:Hfind; simpl; [done|].
  apply find_conv_None in Hfind.
  unfold unique_ids, ids. rewrite fmap_cons. simpl.
  by apply NoDup_cons.
Qed.

Lemma update_last_ids (upd : ChatMessage → ChatMessage) (cid : string)
    (opts : option UpdateOpts) (o : Oracle) (s : Store) :
  ids (conversations (update_last upd cid opts o s)) = ids (conversations s).
Proof.
  unfold update_last. simpl. apply ids_map. intros conv.
  destruct (_ && _); [|done].
  destruct (_ !! _); [|done]. by destruct (opts_streaming opts).
Qed.

Lemma act_unique_ids (a : Action) (o : Oracle) (s : Store) :
  unique_ids (conversations s) → unique_ids (conversations (act a o s)).
Proof.
  intros Huniq.
  destruct a; cbn [act];
    try (by apply createConversation_unique);
    try (unfold unique_ids, updateLastMessage, updateLastMessageReasoning,
           updateLastMessageToolOutput;
         by rewrite update_last_ids);
    try done;
    try (unfold unique_ids; simpl; rewrite ids_map; [done|];
         intros conv; by case_bool_decide).
  unfold unique_ids, deleteConversation. simpl.
  eapply sublist_NoDup; [done | apply ids_filter_sublist].
Qed.

(** So every state the actions reach from the initial state has pairwise
    distinct identifiers. *)
Lemma reachable_unique_ids (DEFAULT_CONFIG : CodexConfig)
    (acts : list (Action * Oracle)) :
  unique_ids
    (conversations
       (foldl (λ s ao, act ao.1 ao.2 s) (initial_store DEFAULT_CONFIG) acts)).
Proof.
  induction acts as [|[a o] acts IH] using rev_ind.
  - apply NoDup_nil_2.
  - rewrite foldl_app. simpl. by apply act_unique_ids.
Qed.

Lemma createConversation_existing (title : option string)
    (mode : option ChatMode) (sessionId : string) (o : Oracle) (s : Store) :
  sessionId ≠ "" →
  sessionId ∈ ids (conversations s) →
  createConversation title mode (Some sessionId) o s
  = (sessionId, set_currentConversationId s (Some sessionId)).
Proof.
  intros Hne Hin. unfold createConversation. simpl.
  unfold str_or. apply str_truthy_true in Hne. rewrite Hne.
  apply find_conv_is_Some in Hin as [conv Hfind]. by rewrite Hfind.
Qed.

(** C8 (amended). Every action of the store keeps the identifiers of the
    conversation list pairwise distinct. Calling [createConversation] with a
    non-empty [sessionId] that names a conversation of the list returns that
    identifier and changes nothing but [currentConversationId], which becomes
    that identifier. *)
Theorem conversation_ids_stay_unique :
  (∀ (a : Action) (o : Oracle) (s : Store),
     unique_ids (conversations s) → unique_ids (conversations (act a o s)))
  ∧ (∀ title mode (sessionId : string) (o : Oracle) (s : Store),
       sessionId ≠ "" →
       sessionId ∈ ids (conversations s) →
       createConversation title mode (Some sessionId) o s
       = (sessionId, set_currentConversationId s (Some sessionId))).
Proof.
  split; [apply act_unique_ids | apply createConversation_existing].
Qed.

Lemma conversation_ids_stay_unique_example :
  let s := sample_store [sample_conversation "s1" []] in
  unique_ids (conversations (act (AAddMessage "s1" (sample_message "m1" User "hello"))
                               sample_oracle s))
  ∧ createConversation None None (Some "s1") sample_oracle s
    = ("s1", set_currentConversationId s (Some "s1")).
Proof.
  split.
  - apply (proj1 conversation_ids_stay_unique).
    unfold unique_ids. simpl. apply NoDup_singleton.
  - apply (proj2 conversation_ids_stay_unique).
    + discriminate.
    + simpl. apply list_elem_of_here.
Defined.

(** C8, as first stated, fails for the empty [sessionId]: it is falsy, so
    [createConversation] makes up an identifier. Here the empty string names
    the only conversation of the list; the call returns another identifier
    and the list has two conversations afterwards. *)
Lemma createConversation_empty_sessionId :
  let s := sample_store [sample_conversation "" []] in
  unique_ids (conversations s)
  ∧ "" ∈ ids (conversations s)
  ∧ (createConversation None None (Some "") sample_oracle s).1
    = "codex-event-1700000000000-k3j9x0q2a"
  ∧ length (conversations
              (createConversation None None (Some "") sample_oracle s).2)
    = 2%nat.
Proof.
  simpl. split_and!.
  - unfold unique_ids. simpl. apply NoDup_singleton.
  - apply list_elem_of_here.
  - vm_compute. reflexivity.
  - vm_compute. reflexivity.
Qed.

(** ** The listener's filter *)

Lemma substring_all (s : string) : String.substring 0 (String.length s) s = s.
Proof. induction s as [|c s IH]; simpl; [done | by rewrite IH]. Qed.

(** When the identifier starts with the pattern, [replace] cuts the prefix
    off. *)
Lemma replace_first_prefix (rest : string) :
  replace_first "codex-event-" "" ("codex-event-" +:+ rest) = rest.
Proof.
  unfold String.app. simpl.
  destruct rest as [|c rest]; simpl; [done|].
  unfold String.app. f_equal. apply substring_all.
Qed.

(** C2 (amended). The listener returns at once, leaving the state as it was,
    for every [session_configured] event whose session identifier is not
    empty and differs from the hook's [sessionId] with its first occurrence
    of "codex-event-" removed (for a [sessionId] that starts with
    "codex-event-", the rest after that prefix). Every other event goes to
    the handler switch: every event of another type, and every
    [session_configured] event whose identifier is empty or equal. *)
Theorem listener_filters_by_session (cl : Closure) (o : Oracle)
    (event : CodexEvent) (w : HookState) :
  let ourSessionId := replace_first "codex-event-" "" (sessionId cl) in
  (∀ sid, getEventSessionId event = Some sid →
          sid ≠ "" → sid ≠ ourSessionId →
          listen_callback cl o event w = Ignored
          ∧ state_after (listen_callback cl o event w) w = w)
  ∧ (getEventSessionId event = None →
     listen_callback cl o event w = Handled (handleCodexEvent cl o event w))
  ∧ (∀ sid, getEventSessionId event = Some sid →
            sid = "" ∨ sid = ourSessionId →
            listen_callback cl o event w
            = Handled (handleCodexEvent cl o event w))
  ∧ (∀ rest, sessionId cl = "codex-event-" +:+ rest → ourSessionId = rest).
Proof.
  simpl. unfold listen_callback. split_and!.
  - intros sid -> Hne Hother.
    apply str_truthy_true in Hne. rewrite Hne.
    rewrite bool_decide_eq_true_2 by done. done.
  - by intros ->.
  - intros sid -> [-> | ->]; [done|].
    rewrite bool_decide_eq_false_2 by (intros Hne; by apply Hne).
    by rewrite andb_false_r.
  - intros rest ->. apply replace_first_prefix.
Qed.

Lemma listener_filters_by_session_example :
  let cl := mkClosure "codex-event-abc" [] in
  let w := fresh_hook_state (sample_store []) in
  listen_callback cl sample_oracle (mkEvent "e1" (session_configured "xyz")) w
  = Ignored
  ∧ listen_callback cl sample_oracle (mkEvent "e2" task_started) w
    = Handled (handleCodexEvent cl sample_oracle (mkEvent "e2" task_started) w).
Proof.
  split.
  - apply (proj1 (listener_filters_by_session
                    (mkClosure "codex-event-abc" []) sample_oracle
                    (mkEvent "e1" (session_configured "xyz"))
                    (fresh_hook_state (sample_store []))) "xyz");
      [reflexivity | discriminate | vm_compute; discriminate].
  - apply (proj1 (proj2 (listener_filters_by_session
                    (mkClosure "codex-event-abc" []) sample_oracle
                    (mkEvent "e2" task_started)
                    (fresh_hook_state (sample_store []))))).
    reflexivity.
Defined.

(** C2, as first stated, fails for a [session_configured] event with the
    empty session identifier: the identifier is there and differs from
    "abc", yet the event reaches the handler switch. *)
Lemma listener_handles_empty_session_id :
  let cl := mkClosure "codex-event-abc" [] in
  let w := fresh_hook_state (sample_store []) in
  let event := mkEvent "e1" (session_configured "") in
  getEventSessionId event = Some ""
  ∧ replace_first "codex-event-" "" (sessionId cl) = "abc"
  ∧ "" ≠ "abc"
  ∧ listen_callback cl sample_oracle event w
    = Handled (handleCodexEvent cl sample_oracle event w).
Proof. simpl. split_and!; [done | by vm_compute | done | done]. Qed.

(** The pattern is removed where it first occurs, also when that is not at
    the start. *)
Example replace_first_inner :
  replace_first "codex-event-" "" "a-codex-event-b" = "a-b".
Proof. by vm_compute. Qed.

(** ** The storage skips identical writes *)

Lemma last_set_snoc (name : string) (cs : list StorageCall) (c : StorageCall) :
  last_set name (cs ++ [c])
  = match c with
    | CallSetItem name' value =>
        if bool_decide (name' = name) then Some value else last_set name cs
    | _ => last_set name cs
    end.
Proof.
  induction cs as [|c' cs IH]; simpl.
  - by destruct c.
  - rewrite IH. destruct c; try done. by case_bool_decide.
Qed.

Lemma storage_calls_snoc (cs : list StorageCall) (c : StorageCall)
    (st : Storage) :
  storage_calls (cs ++ [c]) st = storage_call c (storage_calls cs st).
Proof. unfold storage_calls. by rewrite foldl_app. Qed.

(** The cache holds, for every name but "__proto__", the value last passed
    to [setItem]. *)
Lemma cache_is_last_set (base0 : gmap string string) (cs : list StorageCall)
    (name : string) :
  name ≠ "__proto__" →
  cache_get name (cache (storage_calls cs (fresh_storage base0)))
  = last_set name cs.
Proof.
  intros Hname. unfold cache_get. rewrite bool_decide_eq_false_2 by done.
  induction cs as [|c cs IH] using rev_ind; [done|].
  rewrite storage_calls_snoc, last_set_snoc.
  destruct c as [n|n|n v]; simpl; try done.
  unfold setItem, cache_get, cache_set.
  destruct (decide (n = name)) as [->|Hn].
  - rewrite !(bool_decide_eq_false_2 (name = "__proto__")) by done.
    rewrite (bool_decide_eq_true_2 (name = name)) by done.
    case_bool_decide as Hcached; [done|]. simpl. apply lookup_insert_eq.
  - rewrite (bool_decide_eq_false_2 (n = name)) by done.
    destruct (bool_decide (_ = Some v)); [done|]. simpl.
    case_bool_decide; [done|]. by rewrite lookup_insert_ne.
Qed.

(** Right after [setItem name value], the same call changes nothing. *)
Lemma setItem_twice (name value : string) (st : Storage) :
  name ≠ "__proto__" →
  setItem name value (setItem name value st) = setItem name value st.
Proof.
  intros Hname. unfold setItem, cache_get, cache_set.
  rewrite !(bool_decide_eq_false_2 (name = "__proto__")) by done.
  destruct (bool_decide (cache st !! name = Some value)) eqn:Hcached.
  - by rewrite Hcached.
  - simpl. rewrite bool_decide_eq_true_2; [done|]. apply lookup_insert_eq.
Qed.

(** For the name "__proto__" the cache never answers: every [setItem]
    writes through. *)
Lemma setItem_proto_writes (value : string) (st : Storage) :
  setItem "__proto__" value st
  = mkStorage (<["__proto__" := value]> (base st)) (cache st)
      (writes st ++ [("__proto__", value)]).
Proof. done. Qed.

(** C4 (amended). For every name other than "__proto__", after any sequence
    of calls on the storage of a fresh window: [setItem name value] with
    the value most recently set for [name] leaves the storage as it is, so
    nothing is written to the underlying store; with any other value (or
    when nothing was set for [name]) it writes the value through: one more
    write, and the underlying store holds the value under [name]. Two
    identical calls in a row write at most once. *)
Theorem setItem_skips_identical_writes (base0 : gmap string string)
    (calls : list StorageCall) (name value : string) :
  name ≠ "__proto__" →
  let st := storage_calls calls (fresh_storage base0) in
  (last_set name calls = Some value →
   setItem name value st = st)
  ∧ (last_set name calls ≠ Some value →
     writes (setItem name value st) = writes st ++ [(name, value)]
     ∧ base (setItem name value st) !! name = Some value
     ∧ (∀ other, other ≠ name →
          base (setItem name value st) !! other = base st !! other))
  ∧ (length (writes (setItem name value (setItem name value st)))
     ≤ S (length (writes st)))%nat.
Proof.
  intros Hname. simpl. split_and!.
  - intros Hlast. unfold setItem.
    rewrite bool_decide_eq_true_2; [done|]. by rewrite cache_is_last_set.
  - intros Hlast. unfold setItem.
    rewrite bool_decide_eq_false_2 by (by rewrite cache_is_last_set).
    simpl. split_and!; [done | apply lookup_insert_eq |].
    intros other Hother. by rewrite lookup_insert_ne.
  - rewrite setItem_twice by done. unfold setItem.
    case_bool_decide; simpl; [lia|]. rewrite length_app. simpl. lia.
Qed.

Lemma setItem_skips_identical_writes_example :
  let calls := [CallSetItem "conversation-storage" "v1";
                CallGetItem "conversation-storage";
                CallSetItem "other" "v2"] in
  let st := storage_calls calls (fresh_storage ∅) in
  setItem "conversation-storage" "v1" st = st
  ∧ writes (setItem "conversation-storage" "v3" st)
    = writes st ++ [("conversation-storage", "v3")].
Proof.
  split.
  - apply (proj1 (setItem_skips_identical_writes ∅
                    [CallSetItem "conversation-storage" "v1";
                     CallGetItem "conversation-storage";
                     CallSetItem "other" "v2"]
                    "conversation-storage" "v1" ltac:(discriminate))).
    reflexivity.
  - apply (proj1 (proj2 (setItem_skips_identical_writes ∅
                    [CallSetItem "conversation-storage" "v1";
                     CallGetItem "conversation-storage";
                     CallSetItem "other" "v2"]
                    "conversation-storage" "v3" ltac:(discriminate)))).
    simpl. discriminate.
Defined.

(** C4, as first stated, fails for the name "__proto__": the cache is a
    plain object, on which that name reads the prototype and an assignment
    of a string stores nothing. The second of two identical calls finds no
    equal value, is not skipped, and the underlying store is written
    twice. *)
Lemma setItem_proto_writes_twice :
  let st := setItem "__proto__" "v" (fresh_storage ∅) in
  last_set "__proto__" [CallSetItem "__proto__" "v"] = Some "v"
  ∧ writes st = [("__proto__", "v")]
  ∧ setItem "__proto__" "v" st ≠ st
  ∧ writes (setItem "__proto__" "v" st)
    = [("__proto__", "v"); ("__proto__", "v")].
Proof.
  simpl. split_and!; [done | done | | done].
  intros Heq. apply (f_equal writes) in Heq. discriminate Heq.
Qed.

(** ** The migration *)

(** C5 (amended). For a version below 4, [migrate] sets the field [config]
    to [DEFAULT_CONFIG] when it is absent or holds a falsy value ([null],
    [false], [0] or the empty string), keeps it when it holds a truthy value
    (every object is one), and leaves every other field as it is; from
    version 4 on, [migrate] returns the state unchanged. *)
Theorem migrate_version_gate (DEFAULT_CONFIG : CodexConfig)
    (persistedState : gmap string jsval) (version : Z) :
  let migrated := migrate DEFAULT_CONFIG persistedState version in
  (version < 4 →
   (persistedState !! "config" = None →
    migrated !! "config" = Some DEFAULT_CONFIG)
   ∧ (∀ c, persistedState !! "config" = Some c → truthy c = false →
        migrated !! "config" = Some DEFAULT_CONFIG)
   ∧ (∀ c, persistedState !! "config" = Some c → truthy c = true →
        migrated = persistedState)
   ∧ (∀ field, field ≠ "config" →
        migrated !! field = persistedState !! field))
  ∧ (4 ≤ version → migrated = persistedState).
Proof.
  simpl. unfold migrate. split.
  - intros Hlt. apply Z.ltb_lt in Hlt. rewrite Hlt. split_and!.
    + intros Hc. by rewrite lookup_insert_eq, Hc.
    + intros c Hc Ht. by rewrite lookup_insert_eq, Hc, Ht.
    + intros c Hc Ht. rewrite Hc, Ht. by apply insert_id.
    + intros field Hfield. by rewrite lookup_insert_ne.
  - intros Hge. apply Z.ltb_ge in Hge. by rewrite Hge.
Qed.

Lemma migrate_version_gate_example :
  migrate (JObj []) {["currentConversationId" := JNull]} 3 !! "config"
  = Some (JObj [])
  ∧ migrate (JObj []) {["currentConversationId" := JNull]} 4
    = {["currentConversationId" := JNull]}.
Proof.
  split.
  - apply (proj1 (proj1 (migrate_version_gate (JObj [])
                           {["currentConversationId" := JNull]} 3)
                    ltac:(lia))).
    reflexivity.
  - apply (proj2 (migrate_version_gate (JObj [])
                    {["currentConversationId" := JNull]} 4)).
    lia.
Defined.

(** C5, as first stated, fails for a [config] field that is present and
    falsy: [null || DEFAULT_CONFIG] is [DEFAULT_CONFIG], so the field is not
    kept. *)
Lemma migrate_replaces_null_config :
  let persistedState : gmap string jsval := {["config" := JNull]} in
  persistedState !! "config" = Some JNull
  ∧ migrate (JObj []) persistedState 3 !! "config" = Some (JObj [])
  ∧ migrate (JObj []) persistedState 3 ≠ persistedState.
Proof.
  simpl. split_and!.
  - reflexivity.
  - reflexivity.
  - intros Heq.
    assert (migrate (JObj []) {["config" := JNull]} 3 !! "config"
            = ({["config" := JNull]} : gmap string jsval) !! "config") as Hcfg
      by (by rewrite Heq).
    vm_compute in Hcfg. discriminate Hcfg.
Qed.

(** ** The streaming buffer *)

Lemma find_conv_fmap (f : Conversation → Conversation) (id : string)
    (convs : list Conversation) :
  (∀ conv, conv_id (f conv) = conv_id conv) →
  find_conv id (f <$> convs) = f <$> find_conv id convs.
Proof.
  intros Hf. unfold find_conv.
  induction convs as [|c convs IH]; [done|].
  rewrite fmap_cons. simpl. rewrite Hf.
  by case_bool_decide.
Qed.

Lemma last_of_Some_length {A : Type} (l : list A) (x : A) :
  last_of l = Some x → (0 < length l)%nat.
Proof. unfold last_of. intros Hx. apply lookup_lt_Some in Hx. lia. Qed.

Lemma last_of_insert {A : Type} (l : list A) (x : A) :
  (0 < length l)%nat → last_of (<[(length l - 1)%nat := x]> l) = Some x.
Proof.
  intros Hlen. unfold last_of. rewrite length_insert.
  apply list_lookup_insert_eq. lia.
Qed.

(** An update of the last message of [sid] is seen by [last_message]. *)
Lemma last_message_update_last (upd : ChatMessage → ChatMessage)
    (sid : string) (opts : option UpdateOpts) (o : Oracle) (s : Store)
    (m : ChatMessage) :
  last_message sid s = Some m →
  last_message sid (update_last upd sid opts o s) = Some (upd m).
Proof.
  unfold last_message, update_last. simpl. intros Hlast.
  rewrite find_conv_fmap.
  2:{ intros conv. destruct (_ && _); [|done].
      destruct (_ !! _); [|done]. by destruct (opts_streaming opts). }
  destruct (find_conv sid (conversations s)) as [conv|] eqn:Hfind;
    [|done]. simpl in *.
  apply find_conv_Some in Hfind as [_ Hid].
  pose proof (last_of_Some_length _ _ Hlast) as Hlen.
  rewrite !bool_decide_eq_true_2 by done. simpl.
  unfold last_of in Hlast. rewrite Hlast.
  destruct (opts_streaming opts); simpl; by apply last_of_insert.
Qed.

Lemma last_message_setSessionLoading (sid sid' : string) (loading : bool)
    (s : Store) :
  last_message sid (setSessionLoading sid' loading s) = last_message sid s.
Proof.
  unfold last_message, setSessionLoading. simpl.
  rewrite find_conv_fmap by (intros conv; by case_bool_decide).
  destruct (find_conv sid (conversations s)) as [conv|]; [|done]. simpl.
  by case_bool_decide.
Qed.

(** Each fragment is appended to the buffer. *)
Lemma delta_appends_to_buffer (cl : Closure) (o : Oracle) (id delta : string)
    (w : HookState) :
  bufferRef (handleCodexEvent cl o (mkEvent id (agent_message_delta delta)) w)
  = bufferRef w +:+ delta.
Proof.
  unfold handleCodexEvent. simpl.
  destruct (ensure_conversation cl o (store w)) as [conv s1].
  by destruct (flushTimer w).
Qed.

(** With no timeout on record, a fragment requests one, 80 ms ahead; with
    one on record it requests none. *)
Lemma delta_schedules_flush (cl : Closure) (o : Oracle) (id delta : string)
    (w : HookState) :
  let w' := handleCodexEvent cl o (mkEvent id (agent_message_delta delta)) w in
  (flushTimer w = None →
   flushTimer w' = Some (next_handle w)
   ∧ timeouts w' = timeouts w ++ [(next_handle w, 80)])
  ∧ (is_Some (flushTimer w) →
     flushTimer w' = flushTimer w ∧ timeouts w' = timeouts w).
Proof.
  simpl. unfold handleCodexEvent. simpl.
  destruct (ensure_conversation cl o (store w)) as [conv s1].
  split.
  - by intros ->.
  - intros [t Ht]. by rewrite Ht.
Qed.

(** A flush with an empty buffer changes nothing. *)
Lemma flushBuffer_empty (cl : Closure) (o : Oracle) (w : HookState) :
  bufferRef w = "" → flushBuffer cl o w = w.
Proof. intros Hempty. unfold flushBuffer. by rewrite Hempty. Qed.

(** A flush empties the buffer and forgets the timeout. *)
Lemma flushBuffer_empties (cl : Closure) (o : Oracle) (w : HookState) :
  bufferRef (flushBuffer cl o w) = "" ∧
  (bufferRef w ≠ "" → flushTimer (flushBuffer cl o w) = None).
Proof.
  unfold flushBuffer.
  destruct (str_truthy (bufferRef w)) eqn:Hbuf; simpl.
  - done.
  - by apply str_truthy_false in Hbuf.
Qed.

(** What a flush writes: the content of the last message in the array the
    hook has seen, followed by the buffer. *)
Lemma flushBuffer_writes (cl : Closure) (o : Oracle) (w : HookState)
    (m : ChatMessage) :
  bufferRef w ≠ "" →
  last_message (sessionId cl) (store w) = Some m →
  last_message (sessionId cl) (store (flushBuffer cl o w))
  = Some (msg_with_isStreaming
            (msg_with_content m
               (from_option content "" (seen_last_message cl) +:+ bufferRef w))
            (Some true)).
Proof.
  intros Hbuf Hlast. unfold flushBuffer.
  apply str_truthy_true in Hbuf. rewrite Hbuf. simpl.
  unfold updateLastMessage.
  rewrite (last_message_update_last _ _ _ _ _ m Hlast). simpl.
  by rewrite str_or_empty.
Qed.

(** While the array the hook has seen agrees with the store on the content
    of the last message, a flush appends the buffer to that content. *)
Lemma flushBuffer_appends_in_sync (cl : Closure) (o : Oracle) (w : HookState)
    (m : ChatMessage) :
  bufferRef w ≠ "" →
  last_message (sessionId cl) (store w) = Some m →
  content <$> seen_last_message cl = Some (content m) →
  content <$> last_message (sessionId cl) (store (flushBuffer cl o w))
  = Some (content m +:+ bufferRef w).
Proof.
  intros Hbuf Hlast Hseen.
  rewrite (flushBuffer_writes cl o w m Hbuf Hlast). simpl.
  destruct (seen_last_message cl) as [m'|]; [|done].
  simpl in *. congruence.
Qed.

(** The terminal events flush the buffer first. *)
Lemma complete_flushes (cl : Closure) (o : Oracle) (w : HookState) :
  bufferRef (complete cl o w) = "".
Proof.
  unfold complete. destruct (last_of _); simpl; apply flushBuffer_empties.
Qed.

Lemma msg_with_content_same (m : ChatMessage) :
  msg_with_content m (content m) = m.
Proof. by destruct m. Qed.

(** The [updateLastMessage...] actions keep the loading flags. *)
Lemma find_conv_update_last (upd : ChatMessage → ChatMessage)
    (cid : string) (opts : option UpdateOpts) (o : Oracle) (s : Store)
    (id : string) (conv' : Conversation) :
  find_conv id (conversations (update_last upd cid opts o s)) = Some conv' →
  ∃ conv, find_conv id (conversations s) = Some conv
          ∧ isLoading conv' = isLoading conv.
Proof.
  unfold update_last. simpl. rewrite find_conv_fmap.
  2:{ intros conv. destruct (_ && _); [|done].
      destruct (_ !! _); [|done]. by destruct (opts_streaming opts). }
  destruct (find_conv id (conversations s)) as [conv|]; [|done].
  simpl. intros [= <-]. exists conv. split; [done|].
  destruct (_ && _); [|done].
  destruct (_ !! _); [|done]. by destruct (opts_streaming opts).
Qed.

Lemma find_conv_setSessionLoading (sid : string) (loading : bool) (s : Store)
    (conv' : Conversation) :
  find_conv sid (conversations (setSessionLoading sid loading s)) = Some conv' →
  isLoading conv' = Some loading.
Proof.
  unfold setSessionLoading. simpl.
  rewrite find_conv_fmap by (intros conv; by case_bool_decide).
  destruct (find_conv sid (conversations s)) as [conv|] eqn:Hfind; [|done].
  apply find_conv_Some in Hfind as [_ Hid].
  simpl. intros [= <-]. by rewrite bool_decide_eq_true_2.
Qed.

(** With an empty buffer, and while the array the hook has seen agrees with
    the store on the content of the last message, a terminal event clears
    the streaming flag of the last message, keeps its content, and clears
    the loading flag of the conversation. *)
Lemma complete_in_sync (cl : Closure) (o : Oracle) (w : HookState)
    (m : ChatMessage) :
  bufferRef w = "" →
  last_message (sessionId cl) (store w) = Some m →
  content <$> seen_last_message cl = Some (content m) →
  last_message (sessionId cl) (store (complete cl o w))
  = Some (msg_with_isStreaming m (Some false))
  ∧ (∀ conv, find_conv (sessionId cl) (conversations (store (complete cl o w)))
             = Some conv → isLoading conv = Some false).
Proof.
  intros Hbuf Hlast Hseen. unfold complete.
  rewrite (flushBuffer_empty cl o w Hbuf).
  unfold seen_last_message in Hseen.
  destruct (last_of (messages_of _)) as [m'|] eqn:Hseen'; [|done].
  simpl in Hseen. injection Hseen as Hcontent.
  unfold with_store. cbn [store]. split.
  - unfold updateLastMessage.
    rewrite (last_message_update_last _ _ _ _ _ m).
    + simpl. by rewrite str_or_empty, Hcontent, msg_with_content_same.
    + by rewrite last_message_setSessionLoading.
  - intros conv Hfind. unfold updateLastMessage in Hfind.
    apply find_conv_update_last in Hfind as (conv0 & Hfind & ->).
    by apply find_conv_setSessionLoading in Hfind.
Qed.

(** C3. What the code does on the store [streaming_store] (conversation
    "s1", last message "Hi") when the hook called on that store handles the
    fragment "A", its timeout fires, and the same happens with the fragment
    "B": the first flush writes "HiA"; the second flush starts again from the
    "Hi" of the array the hook has seen and writes "HiB", so the text of the
    first flush is gone, where appending to the last message gives "HiAB". *)
Theorem second_flush_overwrites_first :
  let w0 := fresh_hook_state streaming_store in
  let w1 := run streaming_hook
              [(sample_oracle, delta_event "A"); (sample_oracle, Timeout 1)]
              w0 in
  let w2 := run streaming_hook [(sample_oracle, delta_event "B")] w1 in
  let w3 := run streaming_hook [(sample_oracle, Timeout 2)] w2 in
  content <$> last_message "s1" (store w1) = Some "HiA"
  ∧ bufferRef w1 = ""
  ∧ bufferRef w2 = "B"
  ∧ timeouts w2 = [(2%nat, 80)]
  ∧ content <$> last_message "s1" (store w3) = Some "HiB"
  ∧ bufferRef w3 = "".
Proof. vm_compute. by split_and!. Qed.

(** A second slip, in the bookkeeping of the timeout: a flush with an empty
    buffer returns before [flushTimer = null]. After an empty fragment, whose
    timeout fires and finds nothing to flush, the variable still holds the
    handle, and the next fragment requests no timeout although none is
    pending. *)
Example empty_fragment_blocks_scheduling :
  let w := run streaming_hook
             [(sample_oracle, delta_event "");
              (sample_oracle, Timeout 1);
              (sample_oracle, delta_event "x")]
             (fresh_hook_state streaming_store) in
  bufferRef w = "x" ∧ flushTimer w = Some 1%nat ∧ timeouts w = [].
Proof. vm_compute. by split_and!. Qed.

(** C7. What the code does on [streaming_store] when the hook called on that
    store handles the fragment " there" and then [task_complete]: the flush
    writes "Hi there", and the update that clears the streaming flag writes
    back the "Hi" of the array the hook has seen, so the flushed text is
    gone. On an empty store, where the first fragment creates the
    conversation, the array the hook has seen has no message to offer: the
    update is skipped and the streaming flag of the last message stays
    true. *)
Theorem complete_reverts_flushed_text :
  let w0 := fresh_hook_state streaming_store in
  let w1 := run streaming_hook [(sample_oracle, delta_event " there")] w0 in
  let w2 := react streaming_hook sample_oracle
              (Event (mkEvent "e2" task_complete)) w1 in
  let v0 := fresh_hook_state (sample_store []) in
  let v2 := run (render "s1" (sample_store []))
              [(sample_oracle, delta_event "Hello");
               (sample_oracle, Event (mkEvent "e2" turn_complete))] v0 in
  bufferRef w1 = " there"
  ∧ content <$> last_message "s1" (store (flushBuffer streaming_hook
                                             sample_oracle w1))
    = Some "Hi there"
  ∧ content <$> last_message "s1" (store w2) = Some "Hi"
  ∧ isStreaming <$> last_message "s1" (store w2) = Some (Some false)
  ∧ content <$> last_message "s1" (store v2) = Some "Hello"
  ∧ isStreaming <$> last_message "s1" (store v2) = Some (Some true).
Proof. vm_compute. by split_and!. Qed.

(** ** The store on the heap *)

Lemma hspec_ret {A : Type} (a : A) (h : Heap) (Q : A → Heap → Prop) :
  Q a h → hspec (hret a) h Q.
Proof. intros HQ. by exists a, h. Qed.

Lemma hspec_bind {A B : Type} (m : HeapM A) (k : A → HeapM B) (h : Heap)
    (Q : B → Heap → Prop) :
  hspec m h (λ a h', hspec (k a) h' Q) → hspec (hbind m k) h Q.
Proof.
  intros (a & h1 & Hm & Hpre1 & b & h2 & Hk & Hpre2 & HQ).
  exists b, h2. unfold hbind. rewrite Hm. split_and!; [done | | done].
  by etrans.
Qed.

Lemma hspec_alloc (obj : HObj) (h : Heap) (Q : loc → Heap → Prop) :
  Q (length h) (h ++ [obj]) → hspec (alloc obj) h Q.
Proof.
  intros HQ. exists (length h), (h ++ [obj]).
  split_and!; [done | by apply prefix_app_r | done].
Qed.

Lemma hspec_get_conv (l : loc) (conv : ConversationOf loc) (h : Heap)
    (Q : ConversationOf loc → Heap → Prop) :
  h !! l = Some (OConversation conv) → Q conv h → hspec (get_conv l) h Q.
Proof. intros Hl HQ. exists conv, h. unfold get_conv. by rewrite Hl. Qed.

Lemma hspec_get_array (l : loc) (elems : list loc) (h : Heap)
    (Q : list loc → Heap → Prop) :
  h !! l = Some (OArray elems) → Q elems h → hspec (get_array l) h Q.
Proof. intros Hl HQ. exists elems, h. unfold get_array. by rewrite Hl. Qed.

Lemma hspec_get_message (l : loc) (m : ChatMessage) (h : Heap)
    (Q : ChatMessage → Heap → Prop) :
  h !! l = Some (OMessage m) → Q m h → hspec (get_message l) h Q.
Proof. intros Hl HQ. exists m, h. unfold get_message. by rewrite Hl. Qed.

Lemma hspec_mono {A : Type} (m : HeapM A) (h : Heap)
    (Q Q' : A → Heap → Prop) :
  (∀ a h', h `prefix_of` h' → Q a h' → Q' a h') →
  hspec m h Q → hspec m h Q'.
Proof.
  intros HQ (a & h' & Hm & Hpre & Ha). exists a, h'. eauto.
Qed.

(** *** What is read from a heap is read from every heap that extends it *)

Lemma read_message_Some (h : Heap) (l : loc) (m : ChatMessage) :
  read_message h l = Some m ↔ h !! l = Some (OMessage m).
Proof.
  unfold read_message. destruct (h !! l) as [[]|]; naive_solver.
Qed.

Lemma read_array_Some (h : Heap) (l : loc) (elems : list loc) :
  read_array h l = Some elems ↔ h !! l = Some (OArray elems).
Proof.
  unfold read_array. destruct (h !! l) as [[]|]; naive_solver.
Qed.

Lemma read_message_mono (h h' : Heap) (l : loc) (m : ChatMessage) :
  h `prefix_of` h' → read_message h l = Some m → read_message h' l = Some m.
Proof.
  rewrite !read_message_Some. intros Hpre Hl.
  by eapply prefix_lookup_Some.
Qed.

Lemma read_array_mono (h h' : Heap) (l : loc) (elems : list loc) :
  h `prefix_of` h' → read_array h l = Some elems → read_array h' l = Some elems.
Proof.
  rewrite !read_array_Some. intros Hpre Hl.
  by eapply prefix_lookup_Some.
Qed.

Lemma mapM_mono {A B : Type} (f g : A → option B) (xs : list A) (ys : list B) :
  (∀ x y, f x = Some y → g x = Some y) →
  mapM f xs = Some ys → mapM g xs = Some ys.
Proof.
  intros Hfg. rewrite !mapM_Some. intros Hxs.
  eapply Forall2_impl; [exact Hxs | exact Hfg].
Qed.

Lemma read_messages_Some (h : Heap) (l : loc) (ms : list ChatMessage) :
  read_messages h l = Some ms ↔
  ∃ elems, h !! l = Some (OArray elems)
           ∧ mapM (read_message h) elems = Some ms.
Proof.
  unfold read_messages. split.
  - intros Hread. destruct (read_array h l) as [elems|] eqn:Harr; [|done].
    apply read_array_Some in Harr. eauto.
  - intros (elems & Harr & Hms). apply read_array_Some in Harr.
    by rewrite Harr.
Qed.

Lemma read_messages_mono (h h' : Heap) (l : loc) (ms : list ChatMessage) :
  h `prefix_of` h' →
  read_messages h l = Some ms → read_messages h' l = Some ms.
Proof.
  rewrite !read_messages_Some. intros Hpre (elems & Harr & Hms).
  exists elems. split; [by eapply prefix_lookup_Some|].
  eapply mapM_mono; [|done]. intros x y. by apply read_message_mono.
Qed.

Lemma read_conversation_Some (h : Heap) (l : loc) (cv : Conversation) :
  read_conversation h l = Some cv ↔
  ∃ conv ms, h !! l = Some (OConversation conv)
             ∧ read_messages h (messages conv) = Some ms
             ∧ cv = conv_with_messages conv ms.
Proof.
  unfold read_conversation. split.
  - destruct (h !! l) as [[m | conv | elems]|]; try done.
    destruct (read_messages h (messages conv)) as [ms|] eqn:Hms; [|done].
    simpl. intros [= <-]. by exists conv, ms.
  - intros (conv & ms & -> & -> & ->). done.
Qed.

Lemma read_conversation_mono (h h' : Heap) (l : loc) (cv : Conversation) :
  h `prefix_of` h' →
  read_conversation h l = Some cv → read_conversation h' l = Some cv.
Proof.
  rewrite !read_conversation_Some. intros Hpre (conv & ms & Hl & Hms & ->).
  exists conv, ms. split_and!; [by eapply prefix_lookup_Some | | done].
  by eapply read_messages_mono.
Qed.

Lemma read_conversations_Some (h : Heap) (l : loc) (cvs : list Conversation) :
  read_conversations h l = Some cvs ↔
  ∃ elems, h !! l = Some (OArray elems)
           ∧ Forall2 (λ l cv, read_conversation h l = Some cv) elems cvs.
Proof.
  unfold read_conversations. split.
  - intros Hread. destruct (read_array h l) as [elems|] eqn:Harr; [|done].
    apply read_array_Some in Harr. apply mapM_Some in Hread. eauto.
  - intros (elems & Harr & Hcvs). apply read_array_Some in Harr.
    rewrite Harr. by apply mapM_Some.
Qed.

Lemma read_conversations_mono (h h' : Heap) (l : loc)
    (cvs : list Conversation) :
  h `prefix_of` h' →
  read_conversations h l = Some cvs → read_conversations h' l = Some cvs.
Proof.
  rewrite !read_conversations_Some. intros Hpre (elems & Harr & Hcvs).
  exists elems. split; [by eapply prefix_lookup_Some|].
  eapply Forall2_impl; [done|]. intros x y.
  by apply read_conversation_mono.
Qed.

Lemma read_snapshot_mono (h h' : Heap) (s : HStore)
    (snap : option (list Conversation)) :
  h `prefix_of` h' →
  read_snapshot h s = Some snap → read_snapshot h' s = Some snap.
Proof.
  unfold read_snapshot. intros Hpre.
  destruct (conversationsSnapshot s) as [l|]; [|done].
  destruct (read_conversations h l) as [cvs|] eqn:Hcvs; [|done].
  by rewrite (read_conversations_mono h h' l cvs Hpre Hcvs).
Qed.

Lemma read_store_Some (h : Heap) (s : HStore) (v : Store) :
  read_store h s = Some v ↔
  read_conversations h (conversations s) = Some (conversations v)
  ∧ read_snapshot h s = Some (conversationsSnapshot v)
  ∧ config v = config s
  ∧ currentConversationId v = currentConversationId s
  ∧ sessionDisconnected v = sessionDisconnected s
  ∧ pendingUserInput v = pendingUserInput s
  ∧ pendingNewConversation v = pendingNewConversation s
  ∧ streamingActive v = streamingActive s.
Proof.
  unfold read_store. split.
  - destruct (read_conversations h (conversations s)) as [cvs|]; [|done].
    destruct (read_snapshot h s) as [snap|]; [|done].
    simpl. intros [= <-]. simpl. done.
  - intros (-> & -> & H1 & H2 & H3 & H4 & H5 & H6). simpl.
    destruct v; simpl in *. by subst.
Qed.

Lemma lookup_fresh (h : Heap) (obj : HObj) :
  (h ++ [obj]) !! length h = Some obj.
Proof. by apply list_lookup_middle. Qed.

(** *** Mapping over an array *)

Lemma hspec_hmapM {A B V V' : Type} (f : A → HeapM B)
    (R : Heap → A → V → Prop) (R' : Heap → B → V' → Prop) (g : V → V') :
  (∀ h h' a v, h `prefix_of` h' → R h a v → R h' a v) →
  (∀ h h' b v, h `prefix_of` h' → R' h b v → R' h' b v) →
  (∀ h a v, R h a v → hspec (f a) h (λ b h', R' h' b (g v))) →
  ∀ xs vs h, Forall2 (R h) xs vs →
    hspec (hmapM f xs) h (λ bs h', Forall2 (R' h') bs (g <$> vs)).
Proof.
  intros HR HR' Hf xs. induction xs as [|x xs IH]; intros vs h Hxs.
  - inversion Hxs; subst. apply hspec_ret. constructor.
  - inversion Hxs as [|? v ? vs' Hx Hxs']; subst. cbn [hmapM].
    apply hspec_bind. eapply hspec_mono; [|apply (Hf h x v Hx)].
    intros b h1 Hpre Hb. cbv beta. apply hspec_bind.
    eapply hspec_mono; [|apply (IH vs' h1)].
    + intros bs h2 Hpre2 Hbs. apply hspec_ret. rewrite fmap_cons.
      constructor; [by eapply HR' | done].
    + eapply Forall2_impl; [exact Hxs'|]. intros a' v' Ha'. by eapply HR.
Qed.

(** [h_map_conversations f] does on the heap what mapping [g] over the
    conversation list does on values, as soon as [f] does on one
    conversation object what [g] does on its value. *)
Lemma hspec_map_conversations (f : loc → ConversationOf loc → HeapM loc)
    (g : Conversation → Conversation) (s : HStore) (h : Heap) (v : Store) :
  (∀ h0 l conv cv,
     h `prefix_of` h0 →
     h0 !! l = Some (OConversation conv) →
     read_conversation h0 l = Some cv →
     hspec (f l conv) h0 (λ l' h', read_conversation h' l' = Some (g cv))) →
  read_store h s = Some v →
  hspec (h_map_conversations f s) h
    (λ s' h', read_store h' s'
              = Some (set_conversations v (g <$> conversations v))).
Proof.
  intros Hf Hread. apply read_store_Some in Hread as (Hconvs & Hsnap & Hrest).
  apply read_conversations_Some in Hconvs as (arr & Harr & Hcvs).
  unfold h_map_conversations.
  apply hspec_bind. eapply hspec_get_array; [done|].
  apply hspec_bind.
  eapply hspec_mono;
    [|apply (hspec_hmapM _
               (λ h0 l cv, h `prefix_of` h0
                           ∧ read_conversation h0 l = Some cv)
               (λ h0 l cv, read_conversation h0 l = Some cv) g)
        with (vs := conversations v)].
  - intros arr' h1 Hpre Harr'. cbv beta.
    apply hspec_bind. apply hspec_alloc. apply hspec_ret.
    assert (h `prefix_of` h1 ++ [OArray arr']) as Hpre'
      by (etrans; [done | by apply prefix_app_r]).
    apply read_store_Some. simpl. split_and!; try tauto.
    + apply read_conversations_Some. exists arr'.
      split; [apply lookup_fresh|].
      eapply Forall2_impl; [exact Harr'|]. intros l cv.
      apply read_conversation_mono. by apply prefix_app_r.
    + by apply (read_snapshot_mono h).
  - intros h0 h1 l cv Hpre [Hpre0 Hl].
    split; [by etrans | by eapply read_conversation_mono].
  - intros ?????. by apply read_conversation_mono.
  - intros h0 l cv [Hpre0 Hl].
    pose proof Hl as Hl'.
    apply read_conversation_Some in Hl' as (conv & ms & Hconv & _ & _).
    apply hspec_bind. eapply hspec_get_conv; [done|].
    by apply Hf.
  - eapply Forall2_impl; [exact Hcvs|]. by intros l cv Hl.
Qed.

(** *** The actions on the heap do what they do on values *)

(** A conversation object allocated from an old one with the same message
    array reads as the old value with the same fields changed. *)
Lemma read_fresh_conversation (h : Heap) (conv conv' : ConversationOf loc)
    (ms : list ChatMessage) :
  read_messages h (messages conv) = Some ms →
  messages conv' = messages conv →
  read_conversation (h ++ [OConversation conv']) (length h)
  = Some (conv_with_messages conv' ms).
Proof.
  intros Hms Hsame. apply read_conversation_Some. exists conv', ms.
  split_and!; [apply lookup_fresh | | done].
  rewrite Hsame. eapply read_messages_mono; [by apply prefix_app_r | done].
Qed.

(** Opens the step premise of [hspec_map_conversations]: names the object
    [conv] at [l] and the messages [ms] it reads to. *)
Ltac open_conversation h0 conv ms Hpre Hl Hms :=
  let l := fresh "l" in
  let cv := fresh "cv" in
  let Hcv := fresh "Hcv" in
  intros h0 l conv cv Hpre Hl Hcv;
  let conv0 := fresh "conv" in
  let Hl0 := fresh "Hl" in
  apply read_conversation_Some in Hcv as (conv0 & ms & Hl0 & Hms & ->);
  rewrite Hl in Hl0; injection Hl0 as <-;
  cbn [conv_id title messages isFavorite conv_with_messages].

Lemma h_updateConversationTitle_sim (id title : string) (o : Oracle)
    (s : HStore) (h : Heap) (v : Store) :
  read_store h s = Some v →
  hspec (h_updateConversationTitle id title o s) h
    (λ s' h', read_store h' s' = Some (updateConversationTitle id title o v)).
Proof.
  intros Hread. unfold h_updateConversationTitle, updateConversationTitle.
  apply hspec_map_conversations; [|done].
  open_conversation h0 conv ms Hpre0 Hl Hms.
  case_bool_decide.
  - apply hspec_alloc. by rewrite (read_fresh_conversation _ conv _ ms).
  - apply hspec_ret. apply read_conversation_Some. by exists conv, ms.
Qed.

Lemma h_toggleFavorite_sim (id : string) (o : Oracle)
    (s : HStore) (h : Heap) (v : Store) :
  read_store h s = Some v →
  hspec (h_toggleFavorite id o s) h
    (λ s' h', read_store h' s' = Some (toggleFavorite id o v)).
Proof.
  intros Hread. unfold h_toggleFavorite, toggleFavorite.
  apply hspec_map_conversations; [|done].
  open_conversation h0 conv ms Hpre0 Hl Hms.
  case_bool_decide.
  - apply hspec_alloc. by rewrite (read_fresh_conversation _ conv _ ms).
  - apply hspec_ret. apply read_conversation_Some. by exists conv, ms.
Qed.

Lemma insert_fresh_array (h : Heap) (a a' m : HObj) :
  <[length h := a']> ((h ++ [a]) ++ [m]) = (h ++ [a']) ++ [m].
Proof.
  rewrite insert_app_l by (rewrite length_app; simpl; lia).
  rewrite insert_app_r_alt by lia. by rewrite Nat.sub_diag.
Qed.

Lemma h_update_last_sim (upd : ChatMessage → ChatMessage) (cid : string)
    (opts : option UpdateOpts) (o : Oracle) (s : HStore) (h : Heap)
    (v : Store) :
  read_store h s = Some v →
  hspec (h_update_last upd cid opts o s) h
    (λ s' h', read_store h' s' = Some (update_last upd cid opts o v)).
Proof.
  intros Hread. unfold h_update_last, update_last.
  apply hspec_map_conversations; [|done].
  open_conversation h0 conv ms Hpre0 Hl Hms.
  pose proof Hms as Hms'.
  apply read_messages_Some in Hms' as (elems & Harr & Helems).
  pose proof (length_mapM _ _ _ Helems) as Hlen.
  assert (read_conversation h0 l = Some (conv_with_messages conv ms)) as Hsame
    by (apply read_conversation_Some; by exists conv, ms).
  case_bool_decide as Hid; simpl; [|by apply hspec_ret].
  apply hspec_bind. eapply hspec_get_array; [done|].
  rewrite <- Hlen.
  case_bool_decide as Hpos; [|by apply hspec_ret].
  destruct (elems !! (length elems - 1)%nat) as [ml|] eqn:Hml.
  2:{ apply lookup_ge_None in Hml. lia. }
  apply mapM_Some in Helems.
  destruct (Forall2_lookup_l _ _ _ _ _ Helems Hml) as (last & Hlast & Hrd).
  rewrite Hlast.
  apply read_message_Some in Hrd.
  set (i := (length elems - 1)%nat) in *.
  set (n := length h0).
  set (h2 := (h0 ++ [OArray (<[i := S n]> elems)]) ++ [OMessage (upd last)]).
  assert (h0 `prefix_of` h2) as Hpre
    by (subst h2; rewrite <- !app_assoc; by apply prefix_app_r).
  assert (length (h0 ++ [OArray elems]) = S n) as Hn1
    by (rewrite length_app; simpl; lia).
  assert (length (h0 ++ [OArray (<[i := S n]> elems)]) = S n) as Hn1'
    by (rewrite length_app; simpl; lia).
  remember (if opts_streaming opts then conv_with_messages conv n
            else conv_with_updatedAt (conv_with_messages conv n) (now o))
    as c' eqn:Hc'.
  set (cv' := if opts_streaming opts then _ else _).
  assert (messages c' = n) as Hmsgs
    by (subst c'; by destruct (opts_streaming opts)).
  assert (cv' = conv_with_messages c' (<[i := upd last]> ms)) as ->
    by (subst c' cv'; by destruct (opts_streaming opts)).
  exists (length h2), (h2 ++ [OConversation c']). split_and!.
  - unfold hbind, alloc, get_message, array_store.
    rewrite (lookup_app_l_Some _ _ _ _ Hrd).
    rewrite (lookup_app_l_Some _ _ _ _ (lookup_fresh h0 _)).
    rewrite insert_fresh_array, Hn1, Hc'. reflexivity.
  - etrans; [exact Hpre | by apply prefix_app_r].
  - apply read_conversation_Some. exists c', (<[i := upd last]> ms).
    split_and!; [apply lookup_fresh | | done].
    rewrite Hmsgs. apply read_messages_Some. exists (<[i := S n]> elems).
    split.
    + apply lookup_app_l_Some, lookup_app_l_Some, lookup_fresh.
    + apply mapM_Some, Forall2_insert.
      * eapply Forall2_impl; [exact Helems|]. intros x y.
        apply read_message_mono. etrans; [exact Hpre | by apply prefix_app_r].
      * apply read_message_Some. apply lookup_app_l_Some.
        pose proof (lookup_fresh (h0 ++ [OArray (<[i := S n]> elems)])
                      (OMessage (upd last))) as Hfresh.
        by rewrite Hn1' in Hfresh.
Qed.

Lemma hmapM_get_message (h : Heap) (elems : list loc) (ms : list ChatMessage) :
  mapM (read_message h) elems = Some ms →
  hmapM get_message elems h = Some (ms, h).
Proof.
  rewrite mapM_Some. induction 1 as [|l m elems ms Hl _ IH]; [done|].
  cbn [hmapM]. unfold hbind.
  assert (get_message l h = Some (m, h)) as ->
    by (unfold get_message; apply read_message_Some in Hl; by rewrite Hl).
  by rewrite IH.
Qed.

Lemma h_addMessage_sim (cid : string) (message : loc) (m : ChatMessage)
    (o : Oracle) (s : HStore) (h : Heap) (v : Store) :
  read_message h message = Some m →
  read_store h s = Some v →
  hspec (h_addMessage cid message o s) h
    (λ s' h', read_store h' s' = Some (addMessage cid m o v)).
Proof.
  intros Hm Hread. unfold h_addMessage, addMessage.
  cbv zeta. apply hspec_map_conversations; [|done].
  open_conversation h0 conv ms Hpre0 Hl Hms.
  pose proof Hms as Hms'.
  apply read_messages_Some in Hms' as (elems & Harr & Helems).
  pose proof (length_mapM _ _ _ Helems) as Hlen.
  case_bool_decide as Hid.
  2:{ apply hspec_ret. apply read_conversation_Some. by exists conv, ms. }
  apply hspec_bind. eapply hspec_get_array; [done|].
  apply hspec_bind. apply hspec_alloc.
  assert (mapM (read_message h0) (elems ++ [message]) = Some (ms ++ [m]))
    as Hall.
  { apply mapM_Some, Forall2_app; [by apply mapM_Some|].
    constructor; [|constructor]. by eapply read_message_mono. }
  assert (length (elems ++ [message]) = length (ms ++ [m])) as Hlen'
    by (rewrite !length_app; simpl; lia).
  rewrite Hlen'.
  set (h1 := h0 ++ [OArray (elems ++ [message])]).
  assert (h0 `prefix_of` h1) as Hpre1 by (by apply prefix_app_r).
  apply hspec_bind.
  eapply (hspec_mono _ _
            (λ t h', t = (if bool_decide (title conv = "New Conversation")
                             && bool_decide (length (ms ++ [m]) = 1%nat)
                          then generateTitle (ms ++ [m]) else title conv)
                     ∧ h' = h1)).
  2:{ destruct (_ && _).
      - exists (generateTitle (ms ++ [m])), h1. split_and!; [|done|done|done].
        unfold hbind. rewrite (hmapM_get_message h1 _ (ms ++ [m])); [done|].
        eapply mapM_mono; [|exact Hall]. intros x y.
        by apply read_message_mono.
      - by apply hspec_ret. }
  intros t h' _ [-> ->]. cbv beta.
  apply hspec_alloc.
  apply read_conversation_Some. eexists _, (ms ++ [m]).
  split_and!; [apply lookup_fresh | | done].
  simpl. apply read_messages_Some. exists (elems ++ [message]). split.
  - apply lookup_app_l_Some, lookup_fresh.
  - eapply mapM_mono; [|exact Hall]. intros x y.
    apply read_message_mono. etrans; [exact Hpre1 | by apply prefix_app_r].
Qed.

Lemma h_snapshotConversations_sim (s : HStore) (h : Heap) (v : Store) :
  read_store h s = Some v →
  hspec (h_snapshotConversations s) h
    (λ s' h', read_store h' s' = Some (snapshotConversations v)).
Proof.
  intros Hread. apply read_store_Some in Hread as (Hconvs & Hsnap & Hrest).
  pose proof Hconvs as Hconvs'.
  apply read_conversations_Some in Hconvs' as (arr & Harr & Hcvs).
  unfold h_snapshotConversations, snapshotConversations. cbv zeta.
  apply hspec_bind. eapply hspec_get_array; [done|].
  apply hspec_bind.
  eapply hspec_mono;
    [|apply (hspec_hmapM _
               (λ h0 l cv, read_conversation h0 l = Some cv)
               (λ h0 l cv, read_conversation h0 l = Some cv)
               (λ conv : Conversation,
                  conv_with_messages conv (messages conv)))
        with (vs := conversations v)].
  - intros snapshot h1 Hpre Hsnapshot. cbv beta.
    apply hspec_bind. apply hspec_alloc. apply hspec_ret.
    assert (h `prefix_of` h1 ++ [OArray snapshot]) as Hpre'
      by (etrans; [done | by apply prefix_app_r]).
    apply read_store_Some. simpl. split_and!; try tauto.
    + by apply (read_conversations_mono h).
    + unfold read_snapshot. simpl.
      assert (read_conversations (h1 ++ [OArray snapshot]) (length h1)
              = Some ((λ conv : Conversation,
                         conv_with_messages conv (messages conv))
                      <$> conversations v)) as ->; [|done].
      apply read_conversations_Some. exists snapshot.
      split; [apply lookup_fresh|].
      eapply Forall2_impl; [exact Hsnapshot|]. intros l cv.
      apply read_conversation_mono. by apply prefix_app_r.
  - intros ?????. by apply read_conversation_mono.
  - intros ?????. by apply read_conversation_mono.
  - intros h0 l cv Hcv.
    apply read_conversation_Some in Hcv as (conv & ms & Hl & Hms & ->).
    pose proof Hms as Hms'.
    apply read_messages_Some in Hms' as (elems & Harr0 & Helems).
    apply hspec_bind. eapply hspec_get_conv; [done|].
    apply hspec_bind. eapply hspec_get_array; [done|].
    apply hspec_bind. apply hspec_alloc. apply hspec_alloc.
    apply read_conversation_Some.
    eexists _, ms. split_and!; [apply lookup_fresh | | done].
    simpl. apply read_messages_Some. exists elems. split.
    + apply lookup_app_l_Some, lookup_fresh.
    + eapply mapM_mono; [|exact Helems]. intros x y.
      apply read_message_mono. rewrite <- app_assoc. by apply prefix_app_r.
  - done.
Qed.

Lemma delete_kept (id : string) (h : Heap) (arr : list loc)
    (cvs : list Conversation) :
  Forall2 (λ l cv, read_conversation h l = Some cv) arr cvs →
  ∃ convs,
    hmapM get_conv arr h = Some (convs, h)
    ∧ Forall2 (λ l cv, read_conversation h l = Some cv)
        (filter (λ lc : loc * ConversationOf loc, conv_id lc.2 ≠ id)
           (zip arr convs)).*1
        (filter (λ conv : Conversation, conv_id conv ≠ id) cvs)
    ∧ match filter (λ lc : loc * ConversationOf loc, conv_id lc.2 ≠ id)
              (zip arr convs) with
      | lc :: _ => Some (conv_id lc.2)
      | [] => None
      end
      = match filter (λ conv : Conversation, conv_id conv ≠ id) cvs with
        | conv :: _ => Some (conv_id conv)
        | [] => None
        end.
Proof.
  induction 1 as [|l cv arr cvs Hl _ (convs & Hconvs & Hkept & Hhead)].
  - exists []. split_and!; [done | constructor | done].
  - pose proof Hl as Hl'.
    apply read_conversation_Some in Hl' as (conv & ms & Hobj & Hms & ->).
    exists (conv :: convs). split_and!.
    + cbn [hmapM]. unfold hbind.
      assert (get_conv l h = Some (conv, h)) as ->
        by (unfold get_conv; by rewrite Hobj).
      by rewrite Hconvs.
    + cbn [zip zip_with]. rewrite !filter_cons. simpl.
      destruct (decide (conv_id conv ≠ id)); [|done].
      rewrite fmap_cons. by constructor.
    + cbn [zip zip_with]. rewrite !filter_cons. simpl.
      by destruct (decide (conv_id conv ≠ id)).
Qed.

Lemma h_deleteConversation_sim (id : string) (s : HStore) (h : Heap)
    (v : Store) :
  read_store h s = Some v →
  hspec (h_deleteConversation id s) h
    (λ s' h', read_store h' s' = Some (deleteConversation id v)).
Proof.
  intros Hread. apply read_store_Some in Hread as (Hconvs & Hsnap & Hrest).
  apply read_conversations_Some in Hconvs as (arr & Harr & Hcvs).
  destruct (delete_kept id h arr (conversations v) Hcvs)
    as (convs & Hget & Hkept & Hhead).
  unfold h_deleteConversation, deleteConversation. cbv zeta.
  apply hspec_bind. eapply hspec_get_array; [done|].
  apply hspec_bind. exists convs, h. split_and!; [done | done |].
  apply hspec_bind. apply hspec_alloc. apply hspec_ret.
  apply read_store_Some. simpl. split_and!; try tauto.
  - apply read_conversations_Some. eexists. split; [apply lookup_fresh|].
    eapply Forall2_impl; [exact Hkept|]. intros l cv.
    apply read_conversation_mono. by apply prefix_app_r.
  - eapply read_snapshot_mono; [|exact Hsnap]. by apply prefix_app_r.
  - destruct Hrest as (_ & -> & _). by rewrite Hhead.
Qed.

Lemma read_store_mono (h h' : Heap) (s : HStore) (v : Store) :
  h `prefix_of` h' → read_store h s = Some v → read_store h' s = Some v.
Proof.
  rewrite !read_store_Some. intros Hpre (Hconvs & Hsnap & Hrest).
  split_and!; try tauto.
  - by apply (read_conversations_mono h).
  - by apply (read_snapshot_mono h).
Qed.

(** Every mutation does on the heap what it does on values: it returns, it
    leaves every object of the old heap as it was, and the new store reads
    as the mutated value. *)
Lemma h_mutate_sim (mu : Mutation) (o : Oracle) (s : HStore) (h : Heap)
    (v : Store) :
  read_store h s = Some v →
  hspec (h_mutate mu o s) h
    (λ s' h', read_store h' s' = Some (mutate mu o v)).
Proof.
  intros Hread. destruct mu; cbn [h_mutate mutate].
  - apply hspec_bind. apply hspec_alloc.
    apply (h_addMessage_sim _ _ message).
    + apply read_message_Some, lookup_fresh.
    + eapply read_store_mono; [by apply prefix_app_r | done].
  - by apply h_update_last_sim.
  - by apply h_update_last_sim.
  - by apply h_update_last_sim.
  - by apply h_updateConversationTitle_sim.
  - by apply h_toggleFavorite_sim.
  - by apply h_deleteConversation_sim.
Qed.

Lemma mutate_all_cons (mu : Mutation) (o : Oracle)
    (mus : list (Mutation * Oracle)) (v : Store) :
  mutate_all ((mu, o) :: mus) v = mutate_all mus (mutate mu o v).
Proof. done. Qed.

Lemma h_mutate_all_sim (mus : list (Mutation * Oracle)) (s : HStore)
    (h : Heap) (v : Store) :
  read_store h s = Some v →
  hspec (h_mutate_all mus s) h
    (λ s' h', read_store h' s' = Some (mutate_all mus v)).
Proof.
  revert s h v. induction mus as [|[mu o] mus IH]; intros s h v Hread.
  - by apply hspec_ret.
  - cbn [h_mutate_all]. rewrite mutate_all_cons.
    apply hspec_bind.
    eapply hspec_mono; [|by apply h_mutate_sim].
    intros s' h' _ Hread'. by apply IH.
Qed.

(** On values, no mutation writes the snapshot field. *)
Lemma mutate_snapshot (mu : Mutation) (o : Oracle) (v : Store) :
  conversationsSnapshot (mutate mu o v) = conversationsSnapshot v.
Proof. by destruct mu. Qed.

Lemma mutate_all_snapshot (mus : list (Mutation * Oracle)) (v : Store) :
  conversationsSnapshot (mutate_all mus v) = conversationsSnapshot v.
Proof.
  revert v. induction mus as [|[mu o] mus IH]; intros v; [done|].
  by rewrite mutate_all_cons, IH, mutate_snapshot.
Qed.

(** The snapshot value is the conversation list. *)
Lemma snapshotConversations_value (v : Store) :
  snapshotConversations v
  = set_conversationsSnapshot v (Some (conversations v)).
Proof.
  unfold snapshotConversations. cbv zeta. do 2 f_equal.
  apply fmap_unchanged. intros conv _. by destruct conv.
Qed.

(** C6. On a heap that holds the store, [snapshotConversations] returns
    and leaves a snapshot that reads as the live conversation list reads:
    the same conversations with the same messages. Every sequence of
    mutations run afterwards ([addMessage], [updateLastMessage],
    [updateLastMessageReasoning], [updateLastMessageToolOutput],
    [updateConversationTitle], [toggleFavorite], [deleteConversation])
    returns and leaves the snapshot reading as it did, while the live list
    reads as the mutated list. *)
Theorem snapshot_unchanged_by_mutations (h : Heap) (s : HStore) (v : Store)
    (mus : list (Mutation * Oracle)) :
  read_store h s = Some v →
  ∃ s1 h1 s2 h2,
    h_snapshotConversations s h = Some (s1, h1)
    ∧ read_snapshot h1 s1 = Some (Some (conversations v))
    ∧ read_conversations h1 (conversations s1) = Some (conversations v)
    ∧ h_mutate_all mus s1 h1 = Some (s2, h2)
    ∧ read_snapshot h2 s2 = Some (Some (conversations v))
    ∧ read_conversations h2 (conversations s2)
      = Some (conversations (mutate_all mus (snapshotConversations v))).
Proof.
  intros Hread.
  destruct (h_snapshotConversations_sim s h v Hread)
    as (s1 & h1 & Hsnap & _ & Hread1).
  destruct (h_mutate_all_sim mus s1 h1 _ Hread1)
    as (s2 & h2 & Hmut & _ & Hread2).
  exists s1, h1, s2, h2.
  apply read_store_Some in Hread1 as (Hconvs1 & Hsnap1 & _).
  apply read_store_Some in Hread2 as (Hconvs2 & Hsnap2 & _).
  rewrite mutate_all_snapshot in Hsnap2.
  rewrite snapshotConversations_value in Hsnap1, Hsnap2, Hconvs1.
  by split_and!.
Qed.

Lemma snapshot_unchanged_by_mutations_example :
  ∃ s1 h1 s2 h2,
    h_snapshotConversations streaming_hstore streaming_heap = Some (s1, h1)
    ∧ read_snapshot h1 s1 = Some (Some (conversations streaming_store))
    ∧ read_conversations h1 (conversations s1)
      = Some (conversations streaming_store)
    ∧ h_mutate_all
        [(MUpdateLastMessage "s1" "Hi there" None, sample_oracle);
         (MDeleteConversation "s1", sample_oracle)] s1 h1
      = Some (s2, h2)
    ∧ read_snapshot h2 s2 = Some (Some (conversations streaming_store))
    ∧ read_conversations h2 (conversations s2)
      = Some (conversations
                (mutate_all
                   [(MUpdateLastMessage "s1" "Hi there" None, sample_oracle);
                    (MDeleteConversation "s1", sample_oracle)]
                   (snapshotConversations streaming_store))).
Proof.
  apply (snapshot_unchanged_by_mutations streaming_heap streaming_hstore
           streaming_store).
  reflexivity.
Defined.

(** The copy is shallow: in the snapshot of [streaming_heap] the
    conversation object (at 5) and its message array (at 4) are new, and
    the array holds the reference (0) of the message object that the live
    array (at 1) holds. *)
Example snapshot_shares_messages :
  ∃ s1 h1,
    h_snapshotConversations streaming_hstore streaming_heap = Some (s1, h1)
    ∧ conversationsSnapshot s1 = Some 6%nat
    ∧ h1 !! 6%nat = Some (OArray [5%nat])
    ∧ (messages <$> (h1 !! 5%nat ≫= λ obj,
                       match obj with
                       | OConversation conv => Some conv
                       | _ => None
                       end)) = Some 4%nat
    ∧ h1 !! 4%nat = Some (OArray [0%nat])
    ∧ h1 !! 1%nat = Some (OArray [0%nat]).
Proof. eexists _, _. split; [reflexivity|]. by split_and!. Qed.

(** * Further properties of the store *)

(** ** Titles *)

Lemma substring_length_le (n m : nat) (s : string) :
  (String.length (String.substring n m s) ≤ m)%nat.
Proof.
  revert n m. induction s as [|c s IH]; intros [|n] [|m]; simpl; try lia.
  - specialize (IH 0%nat m). lia.
  - apply (IH n 0%nat).
  - apply (IH n (S m)).
Qed.

Lemma string_length_app (s1 s2 : string) :
  String.length (s1 +:+ s2) = (String.length s1 + String.length s2)%nat.
Proof.
  unfold String.app. induction s1 as [|c s1 IH]; simpl; [done | by rewrite IH].
Qed.

(** X1. A generated title has at most 53 characters (50 of the first user
    message and the three dots), and is "New Conversation" when no message
    is from the user. *)
Theorem generateTitle_bounded (msgs : list ChatMessage) :
  (String.length (generateTitle msgs) ≤ 53)%nat
  ∧ (Forall (λ m, role m ≠ User) msgs →
     generateTitle msgs = "New Conversation").
Proof.
  unfold generateTitle. split.
  - destruct (List.find _ msgs) as [m|]; [|simpl; lia].
    cbv zeta. destruct (_ <? _)%nat eqn:Hlong.
    + rewrite string_length_app. simpl.
      pose proof (substring_length_le 0 50 (trim (content m))). lia.
    + apply Nat.ltb_ge in Hlong. lia.
  - intros Hnone. destruct (List.find _ msgs) as [m|] eqn:Hfind; [|done].
    apply find_some in Hfind as [Hin Hrole].
    apply bool_decide_eq_true in Hrole. apply list_elem_of_In in Hin.
    rewrite Forall_forall in Hnone. by destruct (Hnone m Hin).
Qed.

Lemma generateTitle_bounded_example :
  generateTitle [sample_message "m1" Assistant "Hi";
                 sample_message "m2" System "note"]
  = "New Conversation".
Proof.
  apply (proj2 (generateTitle_bounded _)).
  repeat constructor; discriminate.
Defined.

(** ** Creating a conversation *)

(** X2. Whatever its arguments, [createConversation] returns an identifier
    that names a conversation of the new list and is the current one, so
    [getCurrentConversation] finds a conversation with that identifier.
    When the identifier was not in the list, the list is the new
    conversation, without messages, in front of the old list, and
    [pendingNewConversation] is set; when it was, the list is unchanged. *)
Theorem createConversation_current (title : option string)
    (mode : option ChatMode) (sessionId : option string) (o : Oracle)
    (s : Store) :
  let id := (createConversation title mode sessionId o s).1 in
  let s' := (createConversation title mode sessionId o s).2 in
  currentConversationId s' = Some id
  ∧ id ∈ ids (conversations s')
  ∧ (∃ conv, getCurrentConversation s' = Some conv ∧ conv_id conv = id
             ∧ (id ∉ ids (conversations s) →
                conversations s' = conv :: conversations s
                ∧ messages conv = []
                ∧ pendingNewConversation s' = true))
  ∧ (id ∈ ids (conversations s) → conversations s' = conversations s).
Proof.
  simpl. unfold createConversation, getCurrentConversation.
  set (id := opt_str_or sessionId (fresh_conversation_id o)).
  destruct (find_conv id (conversations s)) as [conv|] eqn:Hfind; simpl.
  - pose proof Hfind as Hfind'.
    apply find_conv_Some in Hfind' as [Hin Hid].
    assert (id ∈ ids (conversations s)) as Hid'
      by (apply list_elem_of_fmap; eauto).
    split_and!; [done | done | | done].
    exists conv. rewrite Hfind. split_and!; [done | done |].
    intros Hnot. by destruct Hnot.
  - apply find_conv_None in Hfind.
    split_and!; [done | apply list_elem_of_here | | intros Hin; by destruct Hfind].
    eexists. unfold find_conv. simpl. rewrite bool_decide_eq_true_2 by done.
    by split_and!.
Qed.

(** ** Adding a message *)

(** X3. [addMessage] puts the message at the end of the conversation the
    identifier names: that conversation's messages are the old ones followed
    by the message, which is now its last message; every conversation with
    another identifier is in the new list as it was. *)
Theorem addMessage_appends (conversationId : string) (message : ChatMessage)
    (o : Oracle) (s : Store) (conv : Conversation) :
  find_conv conversationId (conversations s) = Some conv →
  let s' := addMessage conversationId message o s in
  (∃ conv', find_conv conversationId (conversations s') = Some conv'
            ∧ messages conv' = messages conv ++ [message]
            ∧ createdAt conv' = createdAt conv
            ∧ updatedAt conv' = now o)
  ∧ last_message conversationId s' = Some message
  ∧ (∀ other, other ∈ conversations s → conv_id other ≠ conversationId →
       other ∈ conversations s').
Proof.
  intros Hfind. simpl. unfold addMessage. cbv zeta. simpl.
  pose proof Hfind as Hfind'. apply find_conv_Some in Hfind' as [_ Hid].
  assert (∀ c : Conversation,
            conv_id
              (if bool_decide (conv_id c = conversationId)
               then conv_with_updatedAt
                      (conv_with_title
                         (conv_with_messages c (messages c ++ [message]))
                         (if bool_decide (title c = "New Conversation")
                             && bool_decide
                                  (length (messages c ++ [message]) = 1%nat)
                          then generateTitle (messages c ++ [message])
                          else title c))
                      (now o)
               else c) = conv_id c) as Hkeeps
    by (intros c; by case_bool_decide).
  split_and!.
  - rewrite find_conv_fmap by exact Hkeeps. rewrite Hfind. simpl.
    rewrite bool_decide_eq_true_2 by done. eexists. by split_and!.
  - unfold last_message. simpl.
    rewrite find_conv_fmap by exact Hkeeps. rewrite Hfind. simpl.
    rewrite bool_decide_eq_true_2 by done. simpl.
    unfold last_of. rewrite length_app. simpl.
    replace (length (messages conv) + 1 - 1)%nat
      with (length (messages conv)) by lia.
    by apply list_lookup_middle.
  - intros other Hin Hother. apply list_elem_of_fmap.
    exists other. split; [|done]. by rewrite bool_decide_eq_false_2.
Qed.

Lemma addMessage_appends_example :
  last_message "s1"
    (addMessage "s1" (sample_message "m2" User "hello") sample_oracle
       streaming_store)
  = Some (sample_message "m2" User "hello").
Proof.
  apply (proj1 (proj2 (addMessage_appends "s1"
           (sample_message "m2" User "hello") sample_oracle streaming_store
           (sample_conversation "s1" [sample_message "m1" Assistant "Hi"])
           eq_refl))).
Defined.

(** X4. [addMessage] changes a title in one case only: the conversation is
    still called "New Conversation" and has no message yet; the title is
    then generated from the message. In particular a conversation created
    with another title (the event hook uses "New Chat") keeps it. *)
Theorem addMessage_title (conversationId : string) (message : ChatMessage)
    (o : Oracle) (s : Store) (conv conv' : Conversation) :
  find_conv conversationId (conversations s) = Some conv →
  find_conv conversationId
    (conversations (addMessage conversationId message o s)) = Some conv' →
  (title conv = "New Conversation" → messages conv = [] →
   title conv' = generateTitle [message])
  ∧ (title conv ≠ "New Conversation" ∨ messages conv ≠ [] →
     title conv' = title conv).
Proof.
  intros Hfind. unfold addMessage. cbv zeta. simpl.
  pose proof Hfind as Hfind'. apply find_conv_Some in Hfind' as [_ Hid].
  rewrite find_conv_fmap by (intros c; by case_bool_decide).
  rewrite Hfind. simpl. rewrite bool_decide_eq_true_2 by done.
  intros [= <-]. simpl. split.
  - intros -> ->. done.
  - intros [Htitle | Hmsgs].
    + by rewrite bool_decide_eq_false_2.
    + rewrite (bool_decide_eq_false_2 (length _ = 1%nat)).
      * by rewrite andb_false_r.
      * rewrite length_app. simpl. destruct (messages conv); [done|].
        simpl. lia.
Qed.

Lemma addMessage_title_example :
  ∃ conv',
    find_conv "s1"
      (conversations
         (addMessage "s1" (sample_message "m2" User "hello") sample_oracle
            streaming_store)) = Some conv'
    ∧ title conv' = "New Chat".
Proof.
  eexists. split; [reflexivity|].
  apply (proj2 (addMessage_title "s1" (sample_message "m2" User "hello")
                  sample_oracle streaming_store
                  (sample_conversation "s1"
                     [sample_message "m1" Assistant "Hi"])
                  _ eq_refl eq_refl)).
  left. discriminate.
Defined.

(** ** Identifiers that name no conversation *)

Lemma fmap_conv_unnamed (id : string) (f g : Conversation → Conversation)
    (convs : list Conversation) :
  id ∉ ids convs →
  (λ conv, if bool_decide (conv_id conv = id) then f conv else g conv)
    <$> convs
  = g <$> convs.
Proof.
  intros Hid. apply list_fmap_ext. intros i conv Hconv.
  rewrite bool_decide_eq_false_2; [done|]. intros Heq. apply Hid.
  apply list_elem_of_fmap. exists conv. split; [done|].
  by eapply list_elem_of_lookup_2.
Qed.

(** X5. The six actions that address one conversation through [map] leave
    the whole state as it is when the identifier names no conversation:
    [updateConversationTitle], [updateConversationMode], [toggleFavorite],
    [setSessionLoading], [addDisconnectionWarning] and [addMessage]. *)
Theorem actions_on_unnamed_id (id : string) (s : Store) (o : Oracle)
    (text : string) (loading : bool) (message : ChatMessage) :
  id ∉ ids (conversations s) →
  updateConversationTitle id text o s = s
  ∧ updateConversationMode id text o s = s
  ∧ toggleFavorite id o s = s
  ∧ setSessionLoading id loading s = s
  ∧ addDisconnectionWarning id o s = s
  ∧ addMessage id message o s = s.
Proof.
  intros Hid.
  unfold updateConversationTitle, updateConversationMode, toggleFavorite,
    setSessionLoading, addDisconnectionWarning, addMessage. cbv zeta.
  split_and!;
    rewrite (fmap_conv_unnamed id _ (λ conv, conv)) by done;
    rewrite list_fmap_id; apply set_conversations_same.
Qed.

Lemma actions_on_unnamed_id_example :
  updateConversationTitle "gone" "t" sample_oracle streaming_store
  = streaming_store
  ∧ addMessage "gone" (sample_message "m2" User "hello") sample_oracle
      streaming_store
    = streaming_store.
Proof.
  assert ("gone" ∉ ids (conversations streaming_store)) as Hgone.
  { simpl. intros Hin. apply elem_of_cons in Hin as [Heq|Hin];
      [discriminate Heq | by apply elem_of_nil in Hin]. }
  split.
  - apply (proj1 (actions_on_unnamed_id "gone" streaming_store sample_oracle
                    "t" true (sample_message "m2" User "hello") Hgone)).
  - apply (proj2 (proj2 (proj2 (proj2 (proj2
             (actions_on_unnamed_id "gone" streaming_store sample_oracle
                "t" true (sample_message "m2" User "hello") Hgone)))))).
Defined.

Lemma filter_unnamed (id : string) (convs : list Conversation) :
  id ∉ ids convs →
  filter (λ conv : Conversation, conv_id conv ≠ id) convs = convs.
Proof.
  unfold ids. induction convs as [|c convs IH]; [done|].
  rewrite fmap_cons, not_elem_of_cons. intros [Hne Hrest].
  rewrite filter_cons_True by congruence. by rewrite IH.
Qed.

(** X6. [deleteConversation] with an identifier that names no conversation
    keeps the list, yet it still moves the current identifier when that is
    the identifier given (a conversation selected from the history is current
    without being in the list): the current identifier becomes that of the
    first conversation, or null on an empty list. Otherwise the state is
    unchanged. *)
Theorem deleteConversation_unnamed (id : string) (s : Store) :
  id ∉ ids (conversations s) →
  conversations (deleteConversation id s) = conversations s
  ∧ (currentConversationId s = Some id →
     currentConversationId (deleteConversation id s)
     = conv_id <$> head (conversations s))
  ∧ (currentConversationId s ≠ Some id → deleteConversation id s = s).
Proof.
  intros Hid. unfold deleteConversation. cbv zeta.
  rewrite (filter_unnamed id _ Hid). simpl. split_and!.
  - done.
  - intros Hcur. rewrite bool_decide_eq_true_2 by done.
    by destruct (conversations s).
  - intros Hcur. rewrite bool_decide_eq_false_2 by done. by destruct s.
Qed.

Lemma deleteConversation_unnamed_example :
  let s := selectHistoryConversation (sample_conversation "old" [])
             streaming_store in
  currentConversationId s = Some "old"
  ∧ currentConversationId (deleteConversation "old" s) = Some "s1".
Proof.
  split; [reflexivity|].
  assert ("old" ∉ ids (conversations
                         (selectHistoryConversation
                            (sample_conversation "old" []) streaming_store)))
    as Hold.
  { simpl. intros Hin. apply elem_of_cons in Hin as [Heq|Hin];
      [discriminate Heq | by apply elem_of_nil in Hin]. }
  apply (proj1 (proj2 (deleteConversation_unnamed "old"
           (selectHistoryConversation (sample_conversation "old" [])
              streaming_store) Hold))).
  reflexivity.
Defined.

(** Reduces a pointwise relation between a list and its image under [map] to
    one conversation [conv]. *)
Ltac each_conversation conv :=
  apply Forall2_fmap_r, Forall_Forall2_diag, Forall_forall;
  intros conv _; unfold compose; cbv beta zeta.

(** ** Favourites *)

(** X7. Toggling the favourite flag of a conversation twice gives every
    conversation its flag, messages, title and mode back (an absent flag
    counting as false); only [updatedAt] of the named ones has moved. *)
Theorem toggleFavorite_twice (id : string) (o1 o2 : Oracle) (s : Store) :
  let s2 := toggleFavorite id o2 (toggleFavorite id o1 s) in
  Forall2
    (λ conv conv2,
       conv_id conv2 = conv_id conv
       ∧ default false (isFavorite conv2) = default false (isFavorite conv)
       ∧ messages conv2 = messages conv
       ∧ title conv2 = title conv
       ∧ mode conv2 = mode conv
       ∧ (conv_id conv ≠ id → conv2 = conv))
    (conversations s) (conversations s2).
Proof.
  simpl. unfold toggleFavorite. simpl. rewrite <- list_fmap_compose.
  each_conversation conv.
  destruct (decide (conv_id conv = id)) as [Hid|Hid].
  - rewrite (bool_decide_eq_true_2 _ Hid). simpl.
    rewrite (bool_decide_eq_true_2 _ Hid). simpl.
    rewrite negb_involutive. by split_and!.
  - rewrite (bool_decide_eq_false_2 _ Hid).
    rewrite (bool_decide_eq_false_2 _ Hid). by split_and!.
Qed.

(** ** What the actions keep *)

Lemma update_last_message_ids (upd : ChatMessage → ChatMessage)
    (cid : string) (opts : option UpdateOpts) (o : Oracle) (s : Store) :
  (∀ m, msg_id (upd m) = msg_id m) →
  Forall2
    (λ conv conv', conv_id conv' = conv_id conv
                   ∧ message_ids (messages conv') = message_ids (messages conv))
    (conversations s) (conversations (update_last upd cid opts o s)).
Proof.
  intros Hupd. unfold update_last. simpl.
  each_conversation conv.
  destruct (_ && _); [|done].
  destruct (messages conv !! _) as [m|] eqn:Hm; [|done].
  assert (message_ids (<[(length (messages conv) - 1)%nat := upd m]>
                          (messages conv))
          = message_ids (messages conv)) as Hids.
  { unfold message_ids. rewrite list_fmap_insert, Hupd.
    apply list_insert_id. by rewrite list_lookup_fmap, Hm. }
  by destruct (opts_streaming opts).
Qed.

(** X8. No action but [createConversation] (and its helper) and
    [deleteConversation] changes which conversations there are: the
    identifiers of the list stay the same, in the same order. *)
Theorem actions_keep_the_list (a : Action) (o : Oracle) (s : Store) :
  keeps_list a = true →
  ids (conversations (act a o s)) = ids (conversations s).
Proof.
  intros Hkeeps.
  destruct a; try discriminate Hkeeps; cbn [act];
    try (unfold updateLastMessage, updateLastMessageReasoning,
           updateLastMessageToolOutput; by apply update_last_ids);
    try done;
    simpl; apply ids_map; intros conv; by case_bool_decide.
Qed.

Lemma actions_keep_the_list_example :
  ids (conversations
         (act (AAddMessage "s1" (sample_message "m2" User "hello"))
            sample_oracle streaming_store))
  = ["s1"].
Proof.
  apply (actions_keep_the_list
           (AAddMessage "s1" (sample_message "m2" User "hello"))
           sample_oracle streaming_store).
  reflexivity.
Defined.

(** X9. Those actions never drop or reorder a message either: in every
    conversation the identifiers of the old messages are still there, in
    order, at the front of the message list ([addMessage] and
    [addDisconnectionWarning] put one more behind them, the
    [updateLastMessage...] actions replace the last message by one with the
    same identifier). *)
Theorem actions_keep_the_messages (a : Action) (o : Oracle) (s : Store) :
  keeps_list a = true →
  Forall2
    (λ conv conv',
       conv_id conv' = conv_id conv
       ∧ message_ids (messages conv) `prefix_of` message_ids (messages conv'))
    (conversations s) (conversations (act a o s)).
Proof.
  intros Hkeeps.
  assert (∀ convs : list Conversation,
            Forall2
              (λ conv conv',
                 conv_id conv' = conv_id conv
                 ∧ message_ids (messages conv)
                   `prefix_of` message_ids (messages conv'))
              convs convs) as Hrefl
    by (intros convs; by apply Forall_Forall2_diag, Forall_forall).
  assert (∀ upd cid opts,
            (∀ m, msg_id (upd m) = msg_id m) →
            Forall2
              (λ conv conv',
                 conv_id conv' = conv_id conv
                 ∧ message_ids (messages conv)
                   `prefix_of` message_ids (messages conv'))
              (conversations s)
              (conversations (update_last upd cid opts o s))) as Hlast.
  { intros upd cid opts Hupd.
    eapply Forall2_impl; [by apply update_last_message_ids|].
    intros conv conv' [Hid Hmsgs]. split; [done|]. by rewrite Hmsgs. }
  destruct a; try discriminate Hkeeps; cbn [act]; try apply Hrefl.
  - unfold updateConversationTitle. simpl.
    each_conversation conv.
    by case_bool_decide.
  - unfold updateConversationMode. simpl.
    each_conversation conv.
    by case_bool_decide.
  - unfold toggleFavorite. simpl.
    each_conversation conv.
    by case_bool_decide.
  - unfold addDisconnectionWarning. simpl.
    each_conversation conv.
    case_bool_decide; [|done]. simpl. split; [done|].
    unfold message_ids. rewrite fmap_app. by apply prefix_app_r.
  - unfold setSessionLoading. simpl.
    each_conversation conv.
    by case_bool_decide.
  - unfold addMessage. simpl.
    each_conversation conv.
    case_bool_decide; [|done]. simpl. split; [done|].
    unfold message_ids. rewrite fmap_app. by apply prefix_app_r.
  - apply Hlast. intros m. by destruct (opts_flag opts).
  - apply Hlast. intros m. by destruct (opts_flag opts).
  - apply Hlast. intros m. by destruct (opts_flag opts).
Qed.

Lemma actions_keep_the_messages_example :
  Forall2
    (λ conv conv' : Conversation,
       conv_id conv' = conv_id conv
       ∧ message_ids (messages conv) `prefix_of` message_ids (messages conv'))
    (conversations streaming_store)
    (conversations
       (act (AUpdateLastMessage "s1" "other text" None) sample_oracle
          streaming_store)).
Proof.
  apply (actions_keep_the_messages
           (AUpdateLastMessage "s1" "other text" None) sample_oracle
           streaming_store).
  reflexivity.
Defined.

(** ** What gets persisted *)

(** X10. Once there is a snapshot, no action but [snapshotConversations] and
    [setStreamingActive] changes the conversation list that [partialize]
    hands to the storage: whatever is done to the live list, a deleted
    conversation included, stays out of the persisted list until the next
    snapshot. *)
Theorem persisted_list_waits_for_snapshot (a : Action) (o : Oracle)
    (s : Store) :
  is_Some (conversationsSnapshot s) →
  writes_persist_gate a = false →
  p_conversations (partialize (act a o s)) = p_conversations (partialize s).
Proof.
  intros [snapshot Hsnap] Hgate.
  assert (conversationsSnapshot (act a o s) = conversationsSnapshot s
          ∧ streamingActive (act a o s) = streamingActive s) as [Hs Ha].
  { destruct a; try discriminate Hgate; cbn [act]; try done.
    - unfold createConversation. by destruct (find_conv _ _).
    - unfold createConversationWithLatestSession, createConversation.
      by destruct (find_conv _ _). }
  unfold partialize. rewrite Ha, Hs, Hsnap.
  by destruct (streamingActive s).
Qed.

Lemma persisted_list_waits_for_snapshot_example :
  let s := snapshotConversations streaming_store in
  p_conversations (partialize (act (ADeleteConversation "s1") sample_oracle s))
  = Some (conversations streaming_store)
  ∧ conversations (act (ADeleteConversation "s1") sample_oracle s) = [].
Proof.
  split; [|reflexivity].
  rewrite (persisted_list_waits_for_snapshot (ADeleteConversation "s1")
             sample_oracle (snapshotConversations streaming_store));
    [reflexivity | by eexists | reflexivity].
Defined.

(** * Further properties of the persistence options *)

(** [removeItem] and [getItem] leave the cache alone. *)
Lemma removeItem_cache (name : string) (st : Storage) :
  cache (removeItem name st) = cache st.
Proof. done. Qed.

(** X11. [removeItem] does not reach the cache, so for every name other
    than "__proto__", setting the name again to the value it had before it
    was removed is taken for an identical write and skipped: the underlying
    store is left without the name. *)
Theorem setItem_after_removeItem_is_lost (base0 : gmap string string)
    (calls : list StorageCall) (name value : string) :
  name ≠ "__proto__" →
  last_set name calls = Some value →
  let st := storage_calls calls (fresh_storage base0) in
  getItem name (setItem name value (removeItem name st)) = None
  ∧ writes (setItem name value (removeItem name st)) = writes st.
Proof.
  intros Hname Hlast. simpl. unfold setItem.
  rewrite removeItem_cache, cache_is_last_set, Hlast by done.
  rewrite bool_decide_eq_true_2 by done.
  split; [|done]. unfold getItem, removeItem. simpl. apply lookup_delete_eq.
Qed.

Lemma setItem_after_removeItem_is_lost_example :
  getItem "k"
    (storage_calls
       [CallSetItem "k" "v"; CallRemoveItem "k"; CallSetItem "k" "v"]
       (fresh_storage ∅))
  = None.
Proof.
  apply (proj1 (setItem_after_removeItem_is_lost ∅ [CallSetItem "k" "v"]
                  "k" "v" ltac:(discriminate) eq_refl)).
Defined.

(** For the name "__proto__" nothing is skipped: set again after a removal,
    the value is in the underlying store. *)
Example setItem_proto_after_removeItem :
  getItem "__proto__"
    (storage_calls
       [CallSetItem "__proto__" "v"; CallRemoveItem "__proto__";
        CallSetItem "__proto__" "v"]
       (fresh_storage ∅))
  = Some "v".
Proof. reflexivity. Qed.

(** As long as a name is not removed, what the cache answers for it is what
    the underlying store holds. *)
Lemma cache_agrees_with_base (base0 : gmap string string)
    (calls : list StorageCall) (name value : string) :
  CallRemoveItem name ∉ calls →
  cache_get name (cache (storage_calls calls (fresh_storage base0)))
  = Some value →
  base (storage_calls calls (fresh_storage base0)) !! name = Some value.
Proof.
  unfold cache_get. case_bool_decide as Hname; [done|].
  induction calls as [|c calls IH] using rev_ind; [done|].
  rewrite not_elem_of_app, not_elem_of_cons. intros (Hcalls & Hc & _).
  rewrite storage_calls_snoc.
  destruct c as [n|n|n v]; simpl.
  - by apply IH.
  - intros Hcache. rewrite lookup_delete_ne by congruence. by apply IH.
  - unfold setItem. destruct (bool_decide (_ = Some v)); [by apply IH|].
    simpl. unfold cache_set.
    destruct (decide (n = name)) as [->|Hn].
    + rewrite bool_decide_eq_false_2 by done.
      by rewrite !lookup_insert_eq.
    + rewrite (lookup_insert_ne (base _)) by done.
      case_bool_decide; [by apply IH|].
      rewrite lookup_insert_ne by done. by apply IH.
Qed.

(** As long as a name is not removed, the underlying store holds the value
    set last for it, whether the cache knows the name or not. *)
Lemma base_holds_last_set (base0 : gmap string string)
    (calls : list StorageCall) (name value : string) :
  CallRemoveItem name ∉ calls →
  last_set name calls = Some value →
  base (storage_calls calls (fresh_storage base0)) !! name = Some value.
Proof.
  induction calls as [|c calls IH] using rev_ind; [done|].
  rewrite not_elem_of_app, not_elem_of_cons. intros (Hcalls & Hc & _).
  rewrite storage_calls_snoc, last_set_snoc.
  destruct c as [n|n|n v]; simpl.
  - by apply IH.
  - intros Hlast. rewrite lookup_delete_ne by congruence. by apply IH.
  - unfold setItem. case_bool_decide as Hn.
    + subst n. intros [= ->]. case_bool_decide as Hskip.
      * by apply cache_agrees_with_base.
      * simpl. apply lookup_insert_eq.
    + intros Hlast. destruct (bool_decide (_ = Some v)); [by apply IH|].
      simpl. rewrite lookup_insert_ne by done. by apply IH.
Qed.

(** X12. Reading back: after any sequence of calls that never removes the
    name, [setItem name value] followed by [getItem name] gives the value,
    whether the write was skipped or not; and without a further [setItem],
    [getItem] gives the value set last. *)
Theorem getItem_after_setItem (base0 : gmap string string)
    (calls : list StorageCall) (name value : string) :
  CallRemoveItem name ∉ calls →
  let st := storage_calls calls (fresh_storage base0) in
  getItem name (setItem name value st) = Some value
  ∧ (last_set name calls = Some value → getItem name st = Some value).
Proof.
  intros Hcalls. simpl. unfold getItem. split.
  - unfold setItem. case_bool_decide as Hskip.
    + by apply cache_agrees_with_base.
    + simpl. apply lookup_insert_eq.
  - intros Hlast. by apply base_holds_last_set.
Qed.

Lemma getItem_after_setItem_example :
  getItem "k"
    (setItem "k" "v"
       (storage_calls [CallSetItem "k" "v"; CallSetItem "j" "w"]
          (fresh_storage ∅)))
  = Some "v".
Proof.
  assert (CallRemoveItem "k" ∉ [CallSetItem "k" "v"; CallSetItem "j" "w"])
    as Hcalls.
  { intros Hin. apply elem_of_cons in Hin as [Heq|Hin]; [discriminate Heq|].
    apply elem_of_cons in Hin as [Heq|Hin]; [discriminate Heq|].
    by apply elem_of_nil in Hin. }
  apply (proj1 (getItem_after_setItem ∅
                  [CallSetItem "k" "v"; CallSetItem "j" "w"] "k" "v" Hcalls)).
Defined.

(** X13. Migrating twice is migrating once. For a version below 4 the
    migrated state always has a [config] field, and a truthy one whenever
    [DEFAULT_CONFIG] is truthy. *)
Theorem migrate_idempotent (DEFAULT_CONFIG : CodexConfig)
    (persistedState : gmap string jsval) (version : Z) :
  migrate DEFAULT_CONFIG (migrate DEFAULT_CONFIG persistedState version) version
  = migrate DEFAULT_CONFIG persistedState version
  ∧ (version < 4 →
     ∃ c, migrate DEFAULT_CONFIG persistedState version !! "config" = Some c
          ∧ (truthy DEFAULT_CONFIG = true → truthy c = true)).
Proof.
  unfold migrate. destruct (version <? 4) eqn:Hv.
  - set (c' := match persistedState !! "config" with
               | Some c => if truthy c then c else DEFAULT_CONFIG
               | None => DEFAULT_CONFIG
               end).
    assert (truthy DEFAULT_CONFIG = true → truthy c' = true) as Htruthy.
    { intros HD. subst c'. destruct (persistedState !! "config") as [c|];
        [|done]. by destruct (truthy c) eqn:Hc. }
    assert ((if truthy c' then c' else DEFAULT_CONFIG) = c') as Hsame.
    { destruct (truthy c') eqn:Hc'; [done|]. subst c'.
      destruct (persistedState !! "config") as [c|]; [|done].
      destruct (truthy c) eqn:Hc; [congruence | done]. }
    split.
    + rewrite lookup_insert_eq, Hsame. apply insert_insert_eq.
    + intros _. exists c'. split; [apply lookup_insert_eq | done].
  - split; [done|]. intros Hlt. apply Z.ltb_ge in Hv. lia.
Qed.

(** * Further properties of the listener *)

Lemma prefix_occurs (pattern s : string) :
  String.prefix pattern s = true → ∃ after, s = pattern +:+ after.
Proof.
  revert s. induction pattern as [|a pattern IH]; intros s.
  - intros _. by exists s.
  - destruct s as [|b s]; [done|]. simpl.
    destruct (Ascii.ascii_dec a b) as [->|]; [|done].
    intros Hprefix. destruct (IH s Hprefix) as [after ->].
    by exists after.
Qed.

(** A pattern that does not occur is not replaced. *)
Lemma replace_first_absent (pattern replacement s : string) :
  ¬ occurs_in pattern s → replace_first pattern replacement s = s.
Proof.
  induction s as [|c s IH]; intros Habsent.
  - destruct pattern; [|done]. destruct Habsent. by exists "", "".
  - cbn [replace_first].
    destruct (String.prefix pattern (String c s)) eqn:Hprefix.
    + destruct Habsent. apply prefix_occurs in Hprefix as [after Hafter].
      exists "", after. by rewrite Hafter.
    + f_equal. apply IH. intros (before & after & ->).
      apply Habsent. by exists (String c before), after.
Qed.

(** X14. For a hook whose [sessionId] does not contain "codex-event-" (a
    session identifier given as it is), a [session_configured] event reaches
    the handler switch exactly when its identifier is empty or is the
    [sessionId]. *)
Theorem listener_plain_session_id (cl : Closure) (o : Oracle) (id sid : string)
    (w : HookState) :
  ¬ occurs_in "codex-event-" (sessionId cl) →
  (listen_callback cl o (mkEvent id (session_configured sid)) w ≠ Ignored
   ↔ (sid = "" ∨ sid = sessionId cl)).
Proof.
  intros Habsent. unfold listen_callback. simpl.
  rewrite (replace_first_absent _ _ _ Habsent).
  destruct (str_truthy sid) eqn:Hsid; simpl.
  - apply str_truthy_true in Hsid. case_bool_decide as Hne.
    + split; [done | intros [?|?]; congruence].
    + split; [intros _; right | done].
      by destruct (decide (sid = sessionId cl)).
  - apply str_truthy_false in Hsid. split; [by left | done].
Qed.

Lemma listener_plain_session_id_example :
  listen_callback (mkClosure "s1" []) sample_oracle
    (mkEvent "e" (session_configured "s1"))
    (fresh_hook_state (sample_store []))
  ≠ Ignored.
Proof.
  apply (listener_plain_session_id (mkClosure "s1" []) sample_oracle "e" "s1"
           (fresh_hook_state (sample_store []))).
  - intros (before & after & Heq). simpl in Heq.
    apply (f_equal String.length) in Heq.
    rewrite !string_length_app in Heq. simpl in Heq. lia.
  - by right.
Defined.

(** * Further properties of the hook *)

(** ** The hook reaches the store through four actions *)

Lemma listen_callback_cases (cl : Closure) (o : Oracle) (event : CodexEvent)
    (w : HookState) :
  listen_callback cl o event w = Ignored
  ∨ listen_callback cl o event w = Handled (handleCodexEvent cl o event w).
Proof.
  unfold listen_callback. cbv zeta.
  match goal with |- context [if ?c then Ignored else _] => destruct c end;
    auto.
Qed.

(** Whatever the four actions the hook destructures from the store (line 26)
    keep, the handler, the timeouts and every run keep. *)
Section HookPreserves.
Variable I : Store → Prop.
Hypothesis I_createConversation : ∀ title mode sessionId o s,
  I s → I (createConversation title mode sessionId o s).2.
Hypothesis I_addMessage : ∀ cid message o s, I s → I (addMessage cid message o s).
Hypothesis I_updateLastMessage : ∀ cid content opts o s,
  I s → I (updateLastMessage cid content opts o s).
Hypothesis I_setSessionLoading : ∀ sid loading s,
  I s → I (setSessionLoading sid loading s).

Lemma flushBuffer_preserves (cl : Closure) (o : Oracle) (w : HookState) :
  I (store w) → I (store (flushBuffer cl o w)).
Proof.
  intros Hw. unfold flushBuffer. destruct (negb _); [done|]. simpl.
  by apply I_updateLastMessage.
Qed.

Lemma addMessageToStore_preserves (cl : Closure) (message : CodexChatMessage)
    (o : Oracle) (s : Store) :
  I s → I (addMessageToStore cl message o s).
Proof.
  intros Hs. unfold addMessageToStore. cbv zeta. apply I_addMessage.
  destruct (find_conv _ _); [done|]. by apply I_createConversation.
Qed.

Lemma ensure_conversation_preserves (cl : Closure) (o : Oracle) (s : Store) :
  I s → I (ensure_conversation cl o s).2.
Proof.
  intros Hs. unfold ensure_conversation.
  destruct (find_conv _ _); [done|]. simpl. by apply I_createConversation.
Qed.

Lemma complete_preserves (cl : Closure) (o : Oracle) (w : HookState) :
  I (store w) → I (store (complete cl o w)).
Proof.
  intros Hw. unfold complete. cbv zeta.
  pose proof (flushBuffer_preserves cl o w Hw) as Hflush.
  destruct (last_of _); simpl.
  - by apply I_updateLastMessage, I_setSessionLoading.
  - by apply I_setSessionLoading.
Qed.

Lemma handleCodexEvent_preserves (cl : Closure) (o : Oracle)
    (event : CodexEvent) (w : HookState) :
  I (store w) → I (store (handleCodexEvent cl o event w)).
Proof.
  intros Hw. unfold handleCodexEvent.
  destruct (msg event); try done.
  - simpl. by apply I_setSessionLoading.
  - by apply complete_preserves.
  - by apply complete_preserves.
  - destruct (str_truthy _); [|done].
    pose proof (ensure_conversation_preserves cl o (store w) Hw) as Hens.
    destruct (ensure_conversation cl o (store w)) as [conv s1]. simpl in Hens.
    destruct (last_is_assistant _); simpl.
    + by apply I_updateLastMessage.
    + by apply addMessageToStore_preserves.
  - pose proof (ensure_conversation_preserves cl o (store w) Hw) as Hens.
    destruct (ensure_conversation cl o (store w)) as [conv s1]. simpl in Hens.
    assert (I (if negb (last_is_assistant (last_of (messages_of conv)))
               then addMessageToStore cl
                      (mkCodexChatMessage (agent_message_id cl o) TypeAgent ""
                         (now o) (Some true)) o s1
               else s1)) as Hs2
      by (destruct (negb _); [by apply addMessageToStore_preserves | done]).
    by destruct (flushTimer w).
  - simpl. by apply I_setSessionLoading, addMessageToStore_preserves.
Qed.

Lemma react_preserves (cl : Closure) (o : Oracle) (x : Stimulus)
    (w : HookState) :
  I (store w) → I (store (react cl o x w)).
Proof.
  intros Hw. destruct x as [e|handle]; simpl.
  - destruct (listen_callback_cases cl o e w) as [-> | ->]; [done|].
    by apply handleCodexEvent_preserves.
  - unfold fire_timeout. case_bool_decide; [|done].
    by apply flushBuffer_preserves.
Qed.

Lemma run_preserves (cl : Closure) (xs : list (Oracle * Stimulus))
    (w : HookState) :
  I (store w) → I (store (run cl xs w)).
Proof.
  revert w. unfold run. induction xs as [|[o x] xs IH]; intros w Hw; [done|].
  simpl. by apply IH, react_preserves.
Qed.
End HookPreserves.

(** X15. Handling events and timeouts never makes two conversations share
    an identifier: if the identifiers of the store are pairwise distinct
    before a run of the hook, they are after it. *)
Theorem run_keeps_ids_unique (cl : Closure) (xs : list (Oracle * Stimulus))
    (w : HookState) :
  unique_ids (conversations (store w)) →
  unique_ids (conversations (store (run cl xs w))).
Proof.
  apply (run_preserves (λ s, unique_ids (conversations s))).
  - intros. by apply createConversation_unique.
  - intros cid message o s. apply (act_unique_ids (AAddMessage cid message)).
  - intros cid content opts o s.
    apply (act_unique_ids (AUpdateLastMessage cid content opts)).
  - intros sid loading s.
    apply (act_unique_ids (ASetSessionLoading sid loading) sample_oracle).
Qed.

Lemma run_keeps_ids_unique_example :
  unique_ids
    (conversations
       (store (run streaming_hook
                 [(sample_oracle, delta_event "A");
                  (sample_oracle, Event (mkEvent "e2" (error "boom")))]
                 (fresh_hook_state streaming_store)))).
Proof.
  apply run_keeps_ids_unique. unfold unique_ids. simpl.
  apply NoDup_singleton.
Defined.

(** X16. The hook never takes a snapshot and never touches the streaming
    flag, the configuration, the disconnection flag or the pending input:
    after every run those five fields of the store are what they were. So
    the hook itself never changes what [partialize] hands to the storage
    once there is a snapshot. *)
Theorem run_keeps_persist_gate (cl : Closure) (xs : list (Oracle * Stimulus))
    (w : HookState) :
  let s := store w in
  let s' := store (run cl xs w) in
  conversationsSnapshot s' = conversationsSnapshot s
  ∧ streamingActive s' = streamingActive s
  ∧ config s' = config s
  ∧ sessionDisconnected s' = sessionDisconnected s
  ∧ pendingUserInput s' = pendingUserInput s
  ∧ (is_Some (conversationsSnapshot s) →
     p_conversations (partialize s') = p_conversations (partialize s)).
Proof.
  simpl.
  assert (conversationsSnapshot (store (run cl xs w))
          = conversationsSnapshot (store w)
          ∧ streamingActive (store (run cl xs w)) = streamingActive (store w)
          ∧ config (store (run cl xs w)) = config (store w)
          ∧ sessionDisconnected (store (run cl xs w))
            = sessionDisconnected (store w)
          ∧ pendingUserInput (store (run cl xs w))
            = pendingUserInput (store w)) as Hkept.
  { apply (run_preserves
             (λ s', conversationsSnapshot s' = conversationsSnapshot (store w)
                    ∧ streamingActive s' = streamingActive (store w)
                    ∧ config s' = config (store w)
                    ∧ sessionDisconnected s' = sessionDisconnected (store w)
                    ∧ pendingUserInput s' = pendingUserInput (store w)));
      try done.
    intros title mode sessionId o s Hs. unfold createConversation.
    by destruct (find_conv _ _). }
  destruct Hkept as (Hsnap & Hactive & Hconfig & Hdisc & Hinput).
  split_and!; try done.
  intros [snapshot Hsome]. unfold partialize.
  rewrite Hactive, Hsnap, Hsome. by destruct (streamingActive (store w)).
Qed.

Lemma run_keeps_persist_gate_example :
  let w := fresh_hook_state (snapshotConversations streaming_store) in
  let w' := run streaming_hook
              [(sample_oracle, delta_event " there");
               (sample_oracle, Timeout 1)] w in
  content <$> last_message "s1" (store w') = Some "Hi there"
  ∧ p_conversations (partialize (store w'))
    = Some (conversations streaming_store).
Proof.
  split; [reflexivity|].
  rewrite (proj2 (proj2 (proj2 (proj2 (proj2
             (run_keeps_persist_gate streaming_hook
                [(sample_oracle, delta_event " there");
                 (sample_oracle, Timeout 1)]
                (fresh_hook_state (snapshotConversations streaming_store))))))));
    [reflexivity | by eexists].
Defined.

(** ** Approval requests *)

Lemma flushBuffer_approvals (cl : Closure) (o : Oracle) (w : HookState) :
  approvals (flushBuffer cl o w) = approvals w.
Proof. unfold flushBuffer. by destruct (negb _). Qed.

Lemma react_approvals (cl : Closure) (o : Oracle) (x : Stimulus)
    (w : HookState) :
  approvals (react cl o x w) = approvals w ++ requested x.
Proof.
  destruct x as [[id m]|handle]; simpl.
  - unfold listen_callback, getEventSessionId, handleCodexEvent, complete.
    simpl.
    destruct m; simpl; rewrite ?app_nil_r; try done.
    + by destruct (_ && _).
    + destruct (last_of _); simpl; apply flushBuffer_approvals.
    + destruct (last_of _); simpl; apply flushBuffer_approvals.
    + destruct (str_truthy _); [|done].
      destruct (ensure_conversation _ _ _).
      by destruct (last_is_assistant _).
    + destruct (ensure_conversation _ _ _). by destruct (flushTimer w).
  - unfold fire_timeout. rewrite app_nil_r. case_bool_decide; [|done].
    by rewrite flushBuffer_approvals.
Qed.

(** A hook with an empty [sessionId] registers no listener (line 212):
    nothing of the channel reaches it. *)
Lemma listener_registered (cl : Closure) :
  (sessionId cl ≠ "" → listener cl = Some (listen_callback cl))
  ∧ (sessionId cl = "" → listener cl = None).
Proof.
  unfold listener. split.
  - intros Hsid. apply str_truthy_true in Hsid. by rewrite Hsid.
  - by intros ->.
Qed.

(** X17. A hook with a non-empty [sessionId] registers its listener, and
    every approval request that the channel then delivers is handed to
    [onApprovalRequest] once, in the order of arrival, with the event's
    identifier, and nothing else is: the listener's session filter lets all
    of them through, whichever session the hook is for. *)
Theorem run_hands_over_approvals (cl : Closure)
    (xs : list (Oracle * Stimulus)) (w : HookState) :
  sessionId cl ≠ "" →
  listener cl = Some (listen_callback cl)
  ∧ approvals (run cl xs w)
    = approvals w ++ mjoin ((requested ∘ snd) <$> xs).
Proof.
  intros Hsid. split; [by apply listener_registered|].
  revert w. unfold run. induction xs as [|[o x] xs IH]; intros w.
  - simpl. by rewrite app_nil_r.
  - simpl. rewrite IH, react_approvals. by rewrite <- app_assoc.
Qed.

Lemma run_hands_over_approvals_example :
  approvals
    (run (render "other-session" streaming_store)
       [(sample_oracle,
         Event (mkEvent "e1" (exec_approval_request "ls" "/tmp")));
        (sample_oracle, delta_event "A");
        (sample_oracle,
         Event (mkEvent "e2" (patch_approval_request "diff" ["a.txt"])))]
       (fresh_hook_state streaming_store))
  = [ExecApproval "e1" "ls" "/tmp"; PatchApproval "e2" "diff" ["a.txt"]].
Proof.
  rewrite (proj2 (run_hands_over_approvals
                    (render "other-session" streaming_store)
                    [(sample_oracle,
                      Event (mkEvent "e1" (exec_approval_request "ls" "/tmp")));
                     (sample_oracle, delta_event "A");
                     (sample_oracle,
                      Event (mkEvent "e2"
                               (patch_approval_request "diff" ["a.txt"])))]
                    (fresh_hook_state streaming_store)
                    ltac:(discriminate))).
  reflexivity.
Defined.

(** ** The loading flag *)

Lemma find_conv_addMessage_isLoading (cid : string) (message : ChatMessage)
    (o : Oracle) (s : Store) (id : string) (conv' : Conversation) :
  find_conv id (conversations (addMessage cid message o s)) = Some conv' →
  ∃ conv, find_conv id (conversations s) = Some conv
          ∧ isLoading conv' = isLoading conv.
Proof.
  unfold addMessage. cbv zeta. simpl.
  rewrite find_conv_fmap by (intros c; by case_bool_decide).
  destruct (find_conv id (conversations s)) as [conv|]; [|done].
  simpl. intros [= <-]. exists conv. split; [done|]. by case_bool_decide.
Qed.

Lemma complete_clears_loading (cl : Closure) (o : Oracle) (w : HookState)
    (conv : Conversation) :
  find_conv (sessionId cl) (conversations (store (complete cl o w)))
  = Some conv →
  isLoading conv = Some false.
Proof.
  unfold complete. cbv zeta.
  destruct (last_of _); unfold with_store; cbn [store].
  - unfold updateLastMessage. intros Hfind.
    apply find_conv_update_last in Hfind as (conv0 & Hfind & ->).
    by apply find_conv_setSessionLoading in Hfind.
  - apply find_conv_setSessionLoading.
Qed.

(** X18. The loading flag follows the events whatever the hook has seen of
    the store: after [task_started] the conversation of the session, if the
    store has one, is loading; after [task_complete], [turn_complete] and
    [error] it is not. *)
Theorem loading_follows_events (cl : Closure) (o : Oracle) (event : CodexEvent)
    (w : HookState) (loading : bool) (conv : Conversation) :
  loading_after (msg event) = Some loading →
  find_conv (sessionId cl)
    (conversations (store (handleCodexEvent cl o event w))) = Some conv →
  isLoading conv = Some loading.
Proof.
  unfold handleCodexEvent.
  destruct (msg event); try discriminate; intros [= <-];
    unfold with_store; cbn [store];
    first [apply find_conv_setSessionLoading | apply complete_clears_loading].
Qed.

Lemma loading_follows_events_example :
  ∃ conv,
    find_conv "s1"
      (conversations
         (store (handleCodexEvent streaming_hook sample_oracle
                   (mkEvent "e1" task_started)
                   (fresh_hook_state streaming_store)))) = Some conv
    ∧ isLoading conv = Some true.
Proof.
  eexists. split; [reflexivity|].
  apply (loading_follows_events streaming_hook sample_oracle
           (mkEvent "e1" task_started) (fresh_hook_state streaming_store)
           true _ eq_refl eq_refl).
Defined.

(** ** Messages that events put into the store *)

Lemma createConversation_named (title : option string) (mode : option ChatMode)
    (sid : string) (o : Oracle) (s : Store) :
  sid ≠ "" →
  is_Some (find_conv sid
             (conversations (createConversation title mode (Some sid) o s).2)).
Proof.
  intros Hsid. unfold createConversation. simpl. unfold str_or.
  apply str_truthy_true in Hsid. rewrite Hsid.
  destruct (find_conv sid (conversations s)) as [conv|] eqn:Hfind; simpl.
  - by rewrite Hfind.
  - unfold find_conv. simpl. by rewrite bool_decide_eq_true_2.
Qed.

Lemma last_message_addMessage (cid : string) (message : ChatMessage)
    (o : Oracle) (s : Store) :
  is_Some (find_conv cid (conversations s)) →
  last_message cid (addMessage cid message o s) = Some message.
Proof.
  intros [conv Hfind]. unfold last_message, addMessage. cbv zeta. simpl.
  pose proof Hfind as Hfind'. apply find_conv_Some in Hfind' as [_ Hid].
  rewrite find_conv_fmap by (intros c; by case_bool_decide).
  rewrite Hfind. simpl. rewrite bool_decide_eq_true_2 by done. simpl.
  unfold last_of. rewrite length_app. simpl.
  replace (length (messages conv) + 1 - 1)%nat
    with (length (messages conv)) by lia.
  by apply list_lookup_middle.
Qed.

Lemma createConversation_keeps (title : option string)
    (mode : option ChatMode) (sessionId : option string) (o : Oracle)
    (s : Store) (id : string) :
  is_Some (find_conv id (conversations s)) →
  is_Some (find_conv id
             (conversations (createConversation title mode sessionId o s).2)).
Proof.
  rewrite !find_conv_is_Some. unfold createConversation.
  destruct (find_conv _ _); simpl; [done|].
  intros Hin. by apply list_elem_of_further.
Qed.

(** [addMessageToStore] when the conversation is absent from what the hook
    has seen (it is created first), or is in the store. *)
Lemma last_message_addMessageToStore (cl : Closure)
    (message : CodexChatMessage) (o : Oracle) (s : Store) :
  (find_conv (sessionId cl) (seen_conversations cl) = None
   ∧ sessionId cl ≠ "")
  ∨ is_Some (find_conv (sessionId cl) (conversations s)) →
  last_message (sessionId cl) (addMessageToStore cl message o s)
  = Some (mkChatMessage (cm_id message)
            (match cm_type message with
             | TypeUser => User
             | TypeAgent => Assistant
             | TypeSystem => System
             end)
            (cm_content message) (cm_timestamp message)
            None None None None None).
Proof.
  intros Hcase. unfold addMessageToStore. cbv zeta.
  apply last_message_addMessage.
  destruct (find_conv (sessionId cl) (seen_conversations cl)) eqn:Hseen.
  - by destruct Hcase as [[Hnone _] | Hlive].
  - destruct Hcase as [[_ Hsid] | Hlive].
    + by apply createConversation_named.
    + by apply createConversation_keeps.
Qed.

Lemma addMessage_unnamed (id : string) (message : ChatMessage) (o : Oracle)
    (s : Store) :
  id ∉ ids (conversations s) → addMessage id message o s = s.
Proof.
  intros Hid. unfold addMessage. cbv zeta.
  rewrite (fmap_conv_unnamed id _ (λ conv, conv)) by done.
  rewrite list_fmap_id. apply set_conversations_same.
Qed.

Lemma setSessionLoading_unnamed (id : string) (loading : bool) (s : Store) :
  id ∉ ids (conversations s) → setSessionLoading id loading s = s.
Proof.
  intros Hid. unfold setSessionLoading.
  rewrite (fmap_conv_unnamed id _ (λ conv, conv)) by done.
  rewrite list_fmap_id. apply set_conversations_same.
Qed.

(** X19. A first fragment makes room for the text: when the hook has seen
    no conversation for its (non-empty) [sessionId], handling an
    [agent_message_delta] event leaves the store with a conversation of that
    identifier whose last message is an assistant message. *)
Theorem delta_ensures_assistant_message (cl : Closure) (o : Oracle)
    (id delta : string) (w : HookState) :
  find_conv (sessionId cl) (seen_conversations cl) = None →
  sessionId cl ≠ "" →
  ∃ m,
    last_message (sessionId cl)
      (store (handleCodexEvent cl o (mkEvent id (agent_message_delta delta)) w))
    = Some m
    ∧ role m = Assistant.
Proof.
  intros Hseen Hsid. unfold handleCodexEvent. simpl.
  unfold ensure_conversation. rewrite Hseen.
  set (s1 := (createConversation (Some "New Chat") (Some "agent")
                (Some (sessionId cl)) o (store w)).2).
  destruct (createConversation_named (Some "New Chat") (Some "agent")
              (sessionId cl) o (store w) Hsid) as [conv Hconv].
  fold s1 in Hconv. rewrite Hconv. simpl.
  set (s2 := if negb (last_is_assistant (last_of (messages conv))) then _
             else s1).
  assert (∃ m, last_message (sessionId cl) s2 = Some m ∧ role m = Assistant)
    as Hs2.
  { subst s2. destruct (last_of (messages conv)) as [m|] eqn:Hlast; simpl.
    - case_bool_decide as Hrole; simpl.
      + exists m. split; [|done]. unfold last_message. by rewrite Hconv.
      + eexists. split; [apply last_message_addMessageToStore; by left|done].
    - eexists. split; [apply last_message_addMessageToStore; by left|done]. }
  by destruct (flushTimer w).
Qed.

Lemma delta_ensures_assistant_message_example :
  ∃ m,
    last_message "s1"
      (store (handleCodexEvent (render "s1" (sample_store [])) sample_oracle
                (mkEvent "e" (agent_message_delta "Hello"))
                (fresh_hook_state (sample_store []))))
    = Some m
    ∧ role m = Assistant.
Proof.
  apply (delta_ensures_assistant_message (render "s1" (sample_store []))
           sample_oracle "e" "Hello" (fresh_hook_state (sample_store [])));
    [reflexivity | discriminate].
Defined.

(** X20. An [error] event puts a system message "Error: ..." at the end of
    the session's conversation, when the hook has seen no such conversation
    (it is created) or the store has one. When the hook has seen the
    conversation and the store has it no longer, the event changes
    nothing: the error is dropped. *)
Theorem error_event_message (cl : Closure) (o : Oracle) (id message : string)
    (w : HookState) :
  let w' := handleCodexEvent cl o (mkEvent id (error message)) w in
  ((find_conv (sessionId cl) (seen_conversations cl) = None
    ∧ sessionId cl ≠ "")
   ∨ is_Some (find_conv (sessionId cl) (conversations (store w))) →
   last_message (sessionId cl) (store w')
   = Some (mkChatMessage (error_message_id cl o) System
             ("Error: " +:+ message) (now o) None None None None None))
  ∧ (is_Some (find_conv (sessionId cl) (seen_conversations cl)) →
     sessionId cl ∉ ids (conversations (store w)) →
     w' = w).
Proof.
  simpl. unfold handleCodexEvent. simpl. split.
  - intros Hcase. rewrite last_message_setSessionLoading.
    by rewrite last_message_addMessageToStore.
  - intros [conv Hseen] Hlive. unfold addMessageToStore. rewrite Hseen.
    rewrite addMessage_unnamed, setSessionLoading_unnamed by done.
    by destruct w.
Qed.

Lemma error_event_message_example :
  content <$> last_message "s1"
    (store (handleCodexEvent streaming_hook sample_oracle
              (mkEvent "e" (error "boom"))
              (fresh_hook_state streaming_store)))
  = Some "Error: boom".
Proof.
  pose proof (proj1 (error_event_message streaming_hook sample_oracle "e"
                       "boom" (fresh_hook_state streaming_store))
                (or_intror (mk_is_Some _ _ eq_refl))) as Hlast.
  change (sessionId streaming_hook) with "s1" in Hlast.
  rewrite Hlast. reflexivity.
Defined.

(** X21. An [agent_message] event carries the whole text: the text is
    [last_agent_message] when that is there and not empty, [message]
    otherwise. With no text the event changes nothing. With a text, and an
    assistant message last in the conversation the hook has seen, the last
    message of the store's conversation gets the text as its content, in
    place of what it had, and is marked as streaming. *)
Theorem agent_message_replaces (cl : Closure) (o : Oracle)
    (id message : string) (last_agent_message : option string)
    (w : HookState) (m : ChatMessage) :
  let text := opt_str_or last_agent_message message in
  let w' := handleCodexEvent cl o
              (mkEvent id (agent_message message last_agent_message)) w in
  (text = "" → w' = w)
  ∧ (text ≠ "" →
     last_is_assistant (seen_last_message cl) = true →
     last_message (sessionId cl) (store w) = Some m →
     last_message (sessionId cl) (store w')
     = Some (msg_with_isStreaming (msg_with_content m text) (Some true))).
Proof.
  simpl. unfold handleCodexEvent. simpl. rewrite str_or_empty. split.
  - by intros ->.
  - intros Htext Hseen Hlast. apply str_truthy_true in Htext. rewrite Htext.
    unfold seen_last_message in Hseen. unfold ensure_conversation.
    destruct (find_conv (sessionId cl) (seen_conversations cl)) as [conv|];
      [|done].
    rewrite Hseen. unfold with_store. cbn [store].
    unfold updateLastMessage.
    by rewrite (last_message_update_last _ _ _ _ _ m Hlast).
Qed.

Lemma agent_message_replaces_example :
  content <$> last_message "s1"
    (store (handleCodexEvent streaming_hook sample_oracle
              (mkEvent "e" (agent_message "partial" (Some "The whole text")))
              (fresh_hook_state streaming_store)))
  = Some "The whole text".
Proof.
  pose proof (proj2 (agent_message_replaces streaming_hook sample_oracle "e"
                       "partial" (Some "The whole text")
                       (fresh_hook_state streaming_store)
                       (sample_message "m1" Assistant "Hi"))
                ltac:(discriminate) eq_refl eq_refl) as Hlast.
  change (sessionId streaming_hook) with "s1" in Hlast.
  rewrite Hlast. reflexivity.
Defined.

(** ** Bursts of fragments and late timeouts *)

Lemma string_app_assoc (s1 s2 s3 : string) :
  (s1 +:+ s2) +:+ s3 = s1 +:+ (s2 +:+ s3).
Proof.
  unfold String.app. induction s1 as [|c s1 IH]; simpl; [done | by rewrite IH].
Qed.

Lemma string_app_empty_r (s : string) : s +:+ "" = s.
Proof.
  unfold String.app. induction s as [|c s IH]; simpl; [done | by rewrite IH].
Qed.

Lemma react_fragment (cl : Closure) (o : Oracle) (x : Stimulus)
    (w : HookState) :
  is_fragment x = true →
  bufferRef (react cl o x w) = bufferRef w +:+ fragment x
  ∧ (flushTimer w = None →
     flushTimer (react cl o x w) = Some (next_handle w)
     ∧ timeouts (react cl o x w) = timeouts w ++ [(next_handle w, 80)])
  ∧ (is_Some (flushTimer w) →
     flushTimer (react cl o x w) = flushTimer w
     ∧ timeouts (react cl o x w) = timeouts w).
Proof.
  destruct x as [[id m]|handle]; [|done]. destruct m; try done. intros _.
  simpl. unfold listen_callback. simpl.
  split_and!.
  - apply delta_appends_to_buffer.
  - apply delta_schedules_flush.
  - apply delta_schedules_flush.
Qed.

(** X22. A burst of fragments: a run of [agent_message_delta] events, with
    no timeout firing in between, leaves the buffer holding what it held
    followed by the fragments in their order; a burst that starts with no
    timeout on record requests exactly one, and one that starts with a
    timeout on record requests none. *)
Theorem fragments_accumulate (cl : Closure) (xs : list (Oracle * Stimulus))
    (w : HookState) :
  Forall (λ ox, is_fragment ox.2 = true) xs →
  bufferRef (run cl xs w)
  = bufferRef w +:+ foldr (λ ox rest, fragment ox.2 +:+ rest) "" xs
  ∧ (xs ≠ [] → flushTimer w = None →
     timeouts (run cl xs w) = timeouts w ++ [(next_handle w, 80)])
  ∧ (is_Some (flushTimer w) → timeouts (run cl xs w) = timeouts w).
Proof.
  revert w. unfold run.
  induction xs as [|[o x] xs IH]; intros w Hxs.
  - simpl. rewrite string_app_empty_r. by split_and!.
  - apply Forall_cons in Hxs as [Hx Hxs]. simpl in Hx.
    destruct (react_fragment cl o x w Hx) as (Hbuf & Hnone & Hsome).
    destruct (IH (react cl o x w) Hxs) as (IHbuf & _ & IHsome).
    simpl. split_and!.
    + rewrite IHbuf, Hbuf. apply string_app_assoc.
    + intros _ Hw. destruct (Hnone Hw) as [Htimer Htimeouts].
      rewrite IHsome by (by rewrite Htimer). done.
    + intros Hw. destruct (Hsome Hw) as [Htimer Htimeouts].
      rewrite IHsome by (by rewrite Htimer). done.
Qed.

Lemma fragments_accumulate_example :
  bufferRef
    (run streaming_hook
       [(sample_oracle, delta_event "Hel"); (sample_oracle, delta_event "lo")]
       (fresh_hook_state streaming_store))
  = "Hello".
Proof.
  rewrite (proj1 (fragments_accumulate streaming_hook
                    [(sample_oracle, delta_event "Hel");
                     (sample_oracle, delta_event "lo")]
                    (fresh_hook_state streaming_store)
                    ltac:(repeat constructor))).
  reflexivity.
Defined.

Lemma fire_timeout_empty_buffer (cl : Closure) (o : Oracle) (handle : nat)
    (w : HookState) :
  bufferRef w = "" →
  store (fire_timeout cl o handle w) = store w
  ∧ bufferRef (fire_timeout cl o handle w) = ""
  ∧ flushTimer (fire_timeout cl o handle w) = flushTimer w
  ∧ approvals (fire_timeout cl o handle w) = approvals w.
Proof.
  intros Hbuf. unfold fire_timeout. case_bool_decide; [|done].
  rewrite flushBuffer_empty by done. done.
Qed.

(** X23. The terminal events flush without cancelling the timeout. The
    timeout that fires afterwards finds the buffer empty and changes
    neither the store nor the buffer: the late flush is harmless. *)
Theorem late_timeout_is_harmless (cl : Closure) (o o' : Oracle)
    (event : CodexEvent) (handle : nat) (w : HookState) :
  msg event = task_complete ∨ msg event = turn_complete →
  let w' := handleCodexEvent cl o event w in
  timeouts w' = timeouts w
  ∧ store (fire_timeout cl o' handle w') = store w'
  ∧ bufferRef (fire_timeout cl o' handle w') = "".
Proof.
  intros Hterminal. simpl.
  assert (handleCodexEvent cl o event w = complete cl o w) as ->
    by (unfold handleCodexEvent; by destruct Hterminal as [-> | ->]).
  split.
  - unfold complete, flushBuffer. cbv zeta.
    destruct (last_of _); destruct (negb _); done.
  - pose proof (fire_timeout_empty_buffer cl o' handle (complete cl o w)
                  (complete_flushes cl o w)) as (Hstore & Hbuf & _).
    done.
Qed.

Lemma late_timeout_is_harmless_example :
  let w := run streaming_hook [(sample_oracle, delta_event " there")]
             (fresh_hook_state streaming_store) in
  let w' := handleCodexEvent streaming_hook sample_oracle
              (mkEvent "e2" turn_complete) w in
  timeouts w' = [(1%nat, 80)]
  ∧ store (fire_timeout streaming_hook sample_oracle 1 w') = store w'.
Proof.
  split; [reflexivity|].
  apply (proj1 (proj2 (late_timeout_is_harmless streaming_hook sample_oracle
           sample_oracle (mkEvent "e2" turn_complete) 1
           (run streaming_hook [(sample_oracle, delta_event " there")]
              (fresh_hook_state streaming_store))
           (or_intror eq_refl)))).
Defined.

(** * Further properties of the getters and of the heap-level actions *)

(** X24. The getters follow the current identifier: they give nothing (no
    conversation, an empty message list) when it is null or names no
    conversation of the list, as after selecting a conversation from the
    history; and right after [addMessage] to the current conversation,
    [getCurrentMessages] is the old message list followed by the message. *)
Theorem getters_follow_current (s : Store) :
  (currentConversationId s = None
   ∨ (∃ id, currentConversationId s = Some id ∧ id ∉ ids (conversations s)) →
   getCurrentConversation s = None ∧ getCurrentMessages s = [])
  ∧ (∀ id conv message o,
       currentConversationId s = Some id →
       find_conv id (conversations s) = Some conv →
       getCurrentMessages (addMessage id message o s)
       = messages conv ++ [message]).
Proof.
  unfold getCurrentMessages, getCurrentConversation. split.
  - intros [-> | (id & -> & Hid)]; [done|].
    apply find_conv_None in Hid. by rewrite Hid.
  - intros id conv message o Hcur Hfind. unfold addMessage. cbv zeta. simpl.
    rewrite Hcur.
    pose proof Hfind as Hfind'. apply find_conv_Some in Hfind' as [_ Hid].
    rewrite find_conv_fmap by (intros c; by case_bool_decide).
    rewrite Hfind. simpl. by rewrite bool_decide_eq_true_2.
Qed.

Lemma getters_follow_current_example :
  getCurrentMessages
    (selectHistoryConversation
       (sample_conversation "old" [sample_message "m0" User "earlier"])
       streaming_store)
  = [].
Proof.
  apply (proj1 (getters_follow_current
                  (selectHistoryConversation
                     (sample_conversation "old"
                        [sample_message "m0" User "earlier"])
                     streaming_store))).
  right. exists "old". split; [reflexivity|].
  simpl. intros Hin. apply elem_of_cons in Hin as [Heq|Hin];
    [discriminate Heq | by apply elem_of_nil in Hin].
Defined.

(** X25. On a heap that holds the store, [snapshotConversations] and each of
    the seven mutations return, leave every object that was there as it was
    (the old heap is the front of the new one: the actions build new arrays
    and objects and write into none they were given), and leave a store
    that reads as the value-level action applied to what the old store read
    as. *)
Theorem heap_mutations_refine (o : Oracle) (s : HStore) (h : Heap)
    (v : Store) :
  read_store h s = Some v →
  (∀ mu, ∃ s' h',
     h_mutate mu o s h = Some (s', h')
     ∧ h `prefix_of` h'
     ∧ read_store h' s' = Some (mutate mu o v))
  ∧ (∃ s' h',
       h_snapshotConversations s h = Some (s', h')
       ∧ h `prefix_of` h'
       ∧ read_store h' s' = Some (snapshotConversations v)).
Proof.
  intros Hread. split.
  - intros mu. by apply h_mutate_sim.
  - by apply h_snapshotConversations_sim.
Qed.

Lemma heap_mutations_refine_example :
  ∃ s' h',
    h_mutate (MAddMessage "s1" (sample_message "m2" User "hello"))
      sample_oracle streaming_hstore streaming_heap = Some (s', h')
    ∧ streaming_heap `prefix_of` h'
    ∧ read_store h' s'
      = Some (addMessage "s1" (sample_message "m2" User "hello")
                sample_oracle streaming_store).
Proof.
  apply (proj1 (heap_mutations_refine sample_oracle streaming_hstore
                  streaming_heap streaming_store eq_refl)
           (MAddMessage "s1" (sample_message "m2" User "hello"))).
Defined.
